(** * LiteMark: the data-access layer and the bookmark endpoint

    A shallow embedding of [api/vercel/_lib/db.ts], [api/vercel/_lib/auth.ts]
    and [api/vercel/bookmarks/index.ts], and the properties the specification
    states about them.

    Conventions of the embedding.
    - A JavaScript string is its sequence of UTF-16 code units ([list N]);
      [length] is then JavaScript's [.length].
    - The database is the content of its three tables.  [bookmarks] and
      [category_order] are row sequences, in the order in which a scan
      without ORDER BY returns the rows: an INSERT appends a row, and an
      UPDATE writes a new version of every row it changes, which a scan
      returns after the rows that were left alone (PostgreSQL on a table
      whose freed space is not reused).  [settings] is a finite map from
      key to value.
    - The columns are the ones that [initTables] declares.  A VARCHAR(n)
      column counts characters (a surrogate pair is one character); it
      rejects a longer value, unless the characters in excess are all
      spaces, which it cuts off.  An INTEGER column rejects a value outside
      32 bits.  A rejected statement throws and writes nothing; the
      statements before it stay written, since no function of the module
      runs in a transaction.
    - Every INSERT and UPDATE of the module supplies [visible] and ["order"],
      so these two columns always hold a value; [category] and [description]
      are nullable.
    - SQL comparison with NULL is never true: [category = NULL] selects no
      row.
    - An [async] function is a computation over the store that either
      returns or throws.
    - [ensureTables] only issues CREATE ... IF NOT EXISTS statements; it does
      not change the rows of an existing table and is left out.
    - A number is an integer ([Z]): an order that is not an integer is not
      modelled.
    - Not modelled: loss of the connection, text that the database cannot
      encode (U+0000, unpaired surrogates), and id sequences of 2^31
      elements or more (the positions that [reorderBookmarks] and
      [reorderBookmarkCategories] write always fit an INTEGER). *)

From Stdlib Require Import ZArith Lia String Ascii.
From stdpp Require Import base decidable option list numbers sorting gmap.

Local Open Scope Z_scope.

(** ** JavaScript values *)

Abbreviation jsstring := (list N).

(** An ASCII literal as a JavaScript string. *)
Fixpoint str (s : string) : jsstring :=
  match s with
  | EmptyString => []
  | String a s' => N_of_ascii a :: str s'
  end.

(** An optional, nullable property: [p?: T | null]. *)
Inductive optional (A : Type) : Type :=
  | Undefined
  | Null
  | Val (a : A).
Arguments Undefined {A}.
Arguments Null {A}.
Arguments Val {A} a.

(** [x ?? d] *)
Definition nullish {A} (x : optional A) (d : A) : A :=
  match x with
  | Val a => a
  | _ => d
  end.

(** [x ?? d] for a property that is optional but not nullable. *)
Definition nullish_opt {A} (x : option A) (d : A) : A :=
  match x with
  | Some a => a
  | None => d
  end.

(** [s || d] on a string: the empty string is the only falsy string. *)
Definition or_str (s d : jsstring) : jsstring :=
  match s with
  | [] => d
  | _ => s
  end.

(** [s || null] on a string. *)
Definition or_null (s : jsstring) : option jsstring :=
  match s with
  | [] => None
  | _ => Some s
  end.

(** [x || null] on a nullable string (a column value, or a property). *)
Definition opt_or_null (x : option jsstring) : option jsstring :=
  match x with
  | Some s => or_null s
  | None => None
  end.

Definition optional_or_null (x : optional jsstring) : option jsstring :=
  match x with
  | Val s => or_null s
  | _ => None
  end.

(** A nullable value read from (or handed to) a property. *)
Definition of_option {A} (x : option A) : optional A :=
  match x with
  | Some a => Val a
  | None => Null
  end.

(** Truthiness of an optional string: [undefined] and [''] are falsy. *)
Definition truthy (x : option jsstring) : bool :=
  match x with
  | Some (_ :: _) => true
  | _ => false
  end.

(** ECMAScript WhiteSpace and LineTerminator code units, the ones
    [String.prototype.trim] strips. *)
Definition isWhiteSpace (c : N) : bool :=
  ((9 <=? c) && (c <=? 13) || (c =? 32) || (c =? 160) || (c =? 0x1680)
   || (0x2000 <=? c) && (c <=? 0x200A) || (c =? 0x2028) || (c =? 0x2029)
   || (c =? 0x202F) || (c =? 0x205F) || (c =? 0x3000) || (c =? 0xFEFF))%N.

Fixpoint trimStart (s : jsstring) : jsstring :=
  match s with
  | [] => []
  | c :: s' => if isWhiteSpace c then trimStart s' else s
  end.

Fixpoint trimEnd (s : jsstring) : jsstring :=
  match s with
  | [] => []
  | c :: s' =>
      match trimEnd s' with
      | [] => if isWhiteSpace c then [] else [c]
      | t => c :: t
      end
  end.

Definition trim (s : jsstring) : jsstring := trimEnd (trimStart s).

(** [Array.prototype.includes] on strings. *)
Definition includes (l : list jsstring) (x : jsstring) : bool :=
  bool_decide (x ∈ l).

(** [Array.prototype.indexOf] on strings: the first position, or -1. *)
Fixpoint indexOf (l : list jsstring) (x : jsstring) : Z :=
  match l with
  | [] => -1
  | y :: l' =>
      if decide (y = x) then 0
      else let i := indexOf l' x in if i =? -1 then -1 else i + 1
  end.

(** [Array.prototype.sort] with a consistent comparator is the stable
    sort; insertion from the right is one. *)
Section Sort.
Context {A : Type} (cmp : A → A → Z).

Fixpoint sort_insert (x : A) (l : list A) : list A :=
  match l with
  | [] => [x]
  | y :: l' => if cmp x y <=? 0 then x :: l else y :: sort_insert x l'
  end.

Fixpoint sort (l : list A) : list A :=
  match l with
  | [] => []
  | x :: l' => sort_insert x (sort l')
  end.
End Sort.

(** ** db.ts: records and tables *)

(** [interface BookmarkRecord].  [categoryOrder] is declared but never read
    or written by the module and is left out. *)
Record BookmarkRecord := {
  bk_id : jsstring;
  bk_title : jsstring;
  bk_url : jsstring;
  bk_category : optional jsstring;
  bk_description : optional jsstring;
  bk_visible : option bool;
  bk_order : option Z
}.

(** [Omit<BookmarkRecord, 'id' | 'order'>], the argument of
    [createBookmark]. *)
Record NewBookmark := {
  nb_title : jsstring;
  nb_url : jsstring;
  nb_category : optional jsstring;
  nb_description : optional jsstring;
  nb_visible : option bool
}.

(** [Partial<Omit<BookmarkRecord, 'id'>>], the patch of [updateBookmark]. *)
Record BookmarkPatch := {
  p_title : option jsstring;
  p_url : option jsstring;
  p_category : optional jsstring;
  p_description : optional jsstring;
  p_visible : option bool;
  p_order : option Z
}.

(** [interface Settings]. *)
Record Settings := {
  theme : option jsstring;
  siteTitle : option jsstring;
  siteIcon : option jsstring
}.

(** A row of table [bookmarks]. *)
Record Row := {
  r_id : jsstring;
  r_title : jsstring;
  r_url : jsstring;
  r_category : option jsstring;
  r_description : option jsstring;
  r_visible : bool;
  r_order : Z
}.

(** A row of table [category_order]. *)
Record CategoryOrderRow := {
  co_category : jsstring;
  co_order : Z
}.

Record Store := {
  bookmarks : list Row;
  category_order : list CategoryOrderRow;
  settings : gmap jsstring jsstring
}.

Definition with_bookmarks (st : Store) (rows : list Row) : Store :=
  {| bookmarks := rows;
     category_order := category_order st;
     settings := settings st |}.

Definition with_category_order (st : Store) (rows : list CategoryOrderRow) : Store :=
  {| bookmarks := bookmarks st;
     category_order := rows;
     settings := settings st |}.

Definition with_settings (st : Store) (m : gmap jsstring jsstring) : Store :=
  {| bookmarks := bookmarks st;
     category_order := category_order st;
     settings := m |}.

(** ** Computations over the store *)

Inductive Error :=
  | DuplicateKey          (* the database rejects an INSERT: primary key *)
  | ValueTooLong          (* the database rejects a value: VARCHAR(n) *)
  | IntegerOutOfRange     (* the database rejects a value: INTEGER *)
  | InvalidTheme          (* 主题必须是 light/dark/forest/ocean/sunrise/twilight 之一 *)
  | SiteTitleTooLong      (* 站点标题不能超过 60 个字符 *)
  | SiteIconTooLong       (* 站点图标不能超过 512 个字符 *)
  | TypeError.            (* a property of [undefined] is read *)

Inductive Outcome (A : Type) : Type :=
  | Returned (a : A)
  | Thrown (e : Error).
Arguments Returned {A} a.
Arguments Thrown {A} e.

Definition Db (A : Type) : Type := Store → Outcome A * Store.

Definition throw {A} (e : Error) : Db A := λ st, (Thrown e, st).

#[global] Instance db_ret : MRet Db := λ A a st, (Returned a, st).

#[global] Instance db_bind : MBind Db := λ A B k m st,
  match m st with
  | (Returned a, st') => k a st'
  | (Thrown e, st') => (Thrown e, st')
  end.

Definition when (b : bool) (m : Db ()) : Db () :=
  if b then m else mret ().

(** [for (const x of l) { await body(i, x); i++ }], from index [i]. *)
Fixpoint for_each {A} (body : Z → A → Db ()) (i : Z) (l : list A) : Db () :=
  match l with
  | [] => mret ()
  | x :: l' => body i x;; for_each body (i + 1) l'
  end.

Definition state_of {A} (r : Outcome A * Store) : Store := snd r.
Definition outcome_of {A} (r : Outcome A * Store) : Outcome A := fst r.

(** ** The SQL statements of db.ts *)

(** [a = b] in a WHERE clause: not true when either side is NULL. *)
Definition sql_eq (a b : option jsstring) : bool :=
  match a, b with
  | Some x, Some y => bool_decide (x = y)
  | _, _ => false
  end.

(** [MAX] over the selected values: NULL when no row is selected. *)
Fixpoint sql_max (l : list Z) : option Z :=
  match l with
  | [] => None
  | x :: l' => Some (match sql_max l' with
                     | None => x
                     | Some m => Z.max x m
                     end)
  end.

(** The characters of a string: a high surrogate followed by a low one is
    one character. *)
Definition is_high (c : N) : bool := ((0xD800 <=? c) && (c <=? 0xDBFF))%N.
Definition is_low (c : N) : bool := ((0xDC00 <=? c) && (c <=? 0xDFFF))%N.

Fixpoint chars (s : jsstring) : list jsstring :=
  match s with
  | [] => []
  | c :: s' =>
      match s' with
      | d :: s'' => if is_high c && is_low d then [c; d] :: chars s''
                    else [c] :: chars s'
      | [] => [[c]]
      end
  end.

(** A value assigned to a VARCHAR(n) column: the value stored, or [None]
    when the database rejects it. *)
Definition varchar (n : nat) (s : jsstring) : option jsstring :=
  let cs := chars s in
  if decide (length cs ≤ n)%nat then Some s
  else if forallb (λ c, bool_decide (c = [32%N])) (drop n cs)
       then Some (concat (take n cs))
       else None.

(** A value assigned to an INTEGER column is accepted. *)
Definition int4 (v : Z) : bool := (-2147483648 <=? v) && (v <=? 2147483647).

(** The values of the columns [title VARCHAR(500)], [category VARCHAR(255)]
    and ["order" INTEGER] as an INSERT or UPDATE of [bookmarks] stores
    them, or the rejection. *)
Definition bookmark_columns (title : jsstring) (category : option jsstring) (order : Z)
    : Error + jsstring * option jsstring :=
  if int4 order then
    match varchar 500 title, category with
    | Some title', None => inr (title', None)
    | Some title', Some c =>
        match varchar 255 c with
        | Some c' => inr (title', Some c')
        | None => inl ValueTooLong
        end
    | None, _ => inl ValueTooLong
    end
  else inl IntegerOutOfRange.

(** An UPDATE: the rows that the WHERE clause selects are written anew, and
    a scan returns the new versions after the rows that were not changed. *)
Definition sql_update {A} (P : A → bool) (f : A → A) (rows : list A) : list A :=
  filter (λ r, ¬ P r) rows ++ (f <$> filter (λ r, P r) rows).

Definition in_category (cat : option jsstring) (rows : list Row) : list Row :=
  filter (λ r, sql_eq (r_category r) cat) rows.

(** SELECT * FROM bookmarks WHERE id = [id] *)
Definition select_by_id (id : jsstring) : Db (list Row) :=
  λ st, (Returned (filter (λ r, r_id r = id) (bookmarks st)), st).

(** SELECT COALESCE(MAX("order"), -1) FROM bookmarks WHERE category = [cat] *)
Definition select_max_order (cat : option jsstring) : Db Z :=
  λ st, (Returned (default (-1) (sql_max (r_order <$> in_category cat (bookmarks st)))), st).

Definition set_r_order (o : Z) (r : Row) : Row :=
  {| r_id := r_id r; r_title := r_title r; r_url := r_url r;
     r_category := r_category r; r_description := r_description r;
     r_visible := r_visible r; r_order := o |}.

(** UPDATE bookmarks SET "order" = "order" - 1
    WHERE category = [cat] AND "order" > [o].  [o] is the order of a stored
    row, so the new order of a selected row is not below that INTEGER. *)
Definition shift_orders (cat : option jsstring) (o : Z) : Db () :=
  λ st, (Returned (),
         with_bookmarks st
           (sql_update (λ r, sql_eq (r_category r) cat && (o <? r_order r))
                       (λ r, set_r_order (r_order r - 1) r)
                       (bookmarks st))).

(** INSERT INTO bookmarks (id, title, url, category, description, visible,
    "order") VALUES (...); [id VARCHAR(255)] is the primary key. *)
Definition insert_bookmark (row : Row) : Db () :=
  λ st,
    match bookmark_columns (r_title row) (r_category row) (r_order row),
          varchar 255 (r_id row) with
    | inl e, _ => (Thrown e, st)
    | inr _, None => (Thrown ValueTooLong, st)
    | inr (title, category), Some id =>
        if bool_decide (id ∈ r_id <$> bookmarks st)
        then (Thrown DuplicateKey, st)
        else (Returned (),
              with_bookmarks st
                (bookmarks st
                 ++ [{| r_id := id; r_title := title; r_url := r_url row;
                        r_category := category;
                        r_description := r_description row;
                        r_visible := r_visible row; r_order := r_order row |}]))
    end.

(** UPDATE bookmarks SET title = ..., url = ..., category = ...,
    description = ..., visible = ..., "order" = ... WHERE id = [id] *)
Definition update_row (id title url : jsstring) (category description : option jsstring)
    (visible : bool) (order : Z) : Db () :=
  λ st,
    match bookmark_columns title category order with
    | inl e => (Thrown e, st)
    | inr (title', category') =>
        (Returned (),
         with_bookmarks st
           (sql_update (λ r, bool_decide (r_id r = id))
                       (λ r, {| r_id := r_id r; r_title := title'; r_url := url;
                                r_category := category'; r_description := description;
                                r_visible := visible; r_order := order |})
                       (bookmarks st)))
    end.

(** DELETE FROM bookmarks WHERE id = [id] *)
Definition delete_by_id (id : jsstring) : Db () :=
  λ st, (Returned (), with_bookmarks st (filter (λ r, r_id r ≠ id) (bookmarks st))).

(** UPDATE bookmarks SET "order" = [i] WHERE id = [id]; [i] is a position
    in an id sequence. *)
Definition update_order (i : Z) (id : jsstring) : Db () :=
  λ st, (Returned (),
         with_bookmarks st
           (sql_update (λ r, bool_decide (r_id r = id)) (set_r_order i) (bookmarks st))).

(** SELECT id FROM bookmarks *)
Definition select_ids : Db (list jsstring) :=
  λ st, (Returned (r_id <$> bookmarks st), st).

(** SELECT ... FROM bookmarks ORDER BY "order" ASC.  Rows of equal order are
    returned in table order. *)
Definition select_bookmarks_by_order : Db (list Row) :=
  λ st, (Returned (sort (λ a b, r_order a - r_order b) (bookmarks st)), st).

(** SELECT category FROM category_order ORDER BY "order" ASC *)
Definition select_category_order : Db (list jsstring) :=
  λ st, (Returned
           (co_category <$> sort (λ a b, co_order a - co_order b) (category_order st)),
         st).

(** DELETE FROM category_order *)
Definition delete_category_order : Db () :=
  λ st, (Returned (), with_category_order st []).

(** INSERT INTO category_order (category, "order") VALUES ([c], [i])
    ON CONFLICT (category) DO UPDATE SET "order" = [i];
    [category] is VARCHAR(255) UNIQUE, [i] is a position in a sequence. *)
Definition upsert_category_order (i : Z) (c : jsstring) : Db () :=
  λ st,
    match varchar 255 c with
    | None => (Thrown ValueTooLong, st)
    | Some c' =>
        let new := {| co_category := c'; co_order := i |} in
        (Returned (),
         with_category_order st
           (if bool_decide (c' ∈ co_category <$> category_order st)
            then sql_update (λ r, bool_decide (co_category r = c')) (λ _, new)
                            (category_order st)
            else category_order st ++ [new]))
    end.

(** INSERT INTO settings (key, value, updated_at) VALUES ([k], [v], now)
    ON CONFLICT (key) DO UPDATE SET value = [v], updated_at = now;
    [value] is TEXT. *)
Definition upsert_setting (k v : jsstring) : Db () :=
  λ st, (Returned (), with_settings st (<[k:=v]> (settings st))).

(** SELECT value FROM settings WHERE key = [k] *)
Definition select_setting (k : jsstring) : Db (option jsstring) :=
  λ st, (Returned (settings st !! k), st).

(** ** The functions of db.ts *)

Definition normalizeCategory (category : optional jsstring) : jsstring :=
  or_str (trim (nullish category [])) [].

(** The object literal built from a row, written out three times in the
    source ([listBookmarks], [updateBookmark], [deleteBookmark]):
    [category: row.category || null], [description: row.description || null],
    [visible: row.visible !== false], [order: row.order || 0]. *)
Definition record_of_row (row : Row) : BookmarkRecord :=
  {| bk_id := r_id row;
     bk_title := r_title row;
     bk_url := r_url row;
     bk_category := of_option (opt_or_null (r_category row));
     bk_description := of_option (opt_or_null (r_description row));
     bk_visible := Some (r_visible row);
     bk_order := Some (r_order row) |}.

(** The comparator handed to [sort] in [listBookmarks]. *)
Definition compareBookmarks (categoryOrder : list jsstring) (a b : BookmarkRecord) : Z :=
  let catA := normalizeCategory (bk_category a) in
  let catB := normalizeCategory (bk_category b) in
  let indexA := indexOf categoryOrder catA in
  let indexB := indexOf categoryOrder catB in
  if decide (indexA ≠ indexB) then
    if decide (indexA = -1) then 1
    else if decide (indexB = -1) then -1
    else indexA - indexB
  else nullish_opt (bk_order a) 0 - nullish_opt (bk_order b) 0.

Definition listBookmarks : Db (list BookmarkRecord) :=
  categoryOrder ← select_category_order;
  bookmarksResult ← select_bookmarks_by_order;
  let bookmarks := record_of_row <$> bookmarksResult in
  mret (sort (compareBookmarks categoryOrder) bookmarks).

(** [uuid] is the value [crypto.randomUUID()] returns in this call. *)
Definition createBookmark (uuid : jsstring) (data : NewBookmark) : Db BookmarkRecord :=
  let category := normalizeCategory (nb_category data) in
  maxOrder ← select_max_order (or_null category);
  let id := uuid in
  let order := maxOrder + 1 in
  insert_bookmark
    {| r_id := id;
       r_title := nb_title data;
       r_url := nb_url data;
       r_category := or_null category;
       r_description := optional_or_null (nb_description data);
       r_visible := nullish_opt (nb_visible data) true;
       r_order := order |};;
  mret {| bk_id := id;
          bk_title := nb_title data;
          bk_url := nb_url data;
          bk_category := of_option (or_null category);
          bk_description := nb_description data;
          bk_visible := nb_visible data;
          bk_order := Some order |}.

(** [data.order = maxOrder + 1] *)
Definition set_p_order (o : Z) (data : BookmarkPatch) : BookmarkPatch :=
  {| p_title := p_title data; p_url := p_url data;
     p_category := p_category data; p_description := p_description data;
     p_visible := p_visible data; p_order := Some o |}.

Definition updateBookmark (id : jsstring) (data : BookmarkPatch)
    : Db (option BookmarkRecord) :=
  currentResult ← select_by_id id;
  match currentResult with
  | [] => mret None
  | current :: _ =>
      let oldCategory := normalizeCategory (of_option (r_category current)) in
      let newCategory := normalizeCategory (p_category data) in
      data ← (if decide (newCategory ≠ oldCategory) then
                shift_orders (or_null oldCategory) (r_order current);;
                maxOrder ← select_max_order (or_null newCategory);
                mret (set_p_order (maxOrder + 1) data)
              else mret data);
      let title := match p_title data with
                   | Some t => t
                   | None => r_title current
                   end in
      let url := match p_url data with
                 | Some u => u
                 | None => r_url current
                 end in
      let category := match p_category data with
                      | Undefined => opt_or_null (r_category current)
                      | c => or_null (normalizeCategory c)
                      end in
      let description := match p_description data with
                         | Undefined => opt_or_null (r_description current)
                         | d => optional_or_null d
                         end in
      let visible := match p_visible data with
                     | Some v => v
                     | None => r_visible current
                     end in
      let order := match p_order data with
                   | Some o => o
                   | None => r_order current
                   end in
      update_row id title url category description visible order;;
      updatedResult ← select_by_id id;
      match updatedResult with
      | row :: _ => mret (Some (record_of_row row))
      | [] => throw TypeError
      end
  end.

Definition deleteBookmark (id : jsstring) : Db (option BookmarkRecord) :=
  currentResult ← select_by_id id;
  match currentResult with
  | [] => mret None
  | deleted :: _ =>
      let category := normalizeCategory (of_option (r_category deleted)) in
      let order := r_order deleted in
      shift_orders (or_null category) order;;
      delete_by_id id;;
      mret (Some (record_of_row deleted))
  end.

Definition reorderBookmarks (order : list jsstring) : Db (list BookmarkRecord) :=
  for_each update_order 0 order;;
  allIds ← select_ids;
  let missingIds := filter (λ id, ¬ includes order id) allIds in
  for_each update_order (Z.of_nat (length order)) missingIds;;
  listBookmarks.

Definition reorderBookmarkCategories (order : list jsstring) : Db (list BookmarkRecord) :=
  delete_category_order;;
  for_each upsert_category_order 0 order;;
  listBookmarks.

Definition key_theme : jsstring := str "theme".
Definition key_siteTitle : jsstring := str "siteTitle".
Definition key_siteIcon : jsstring := str "siteIcon".

(** The defaults of [getSettings]: 'light', '个人书签', '🔖'. *)
Definition default_theme : jsstring := str "light".
Definition default_siteTitle : jsstring := [0x4E2A; 0x4EBA; 0x4E66; 0x7B7E]%N.
Definition default_siteIcon : jsstring := [0xD83D; 0xDD16]%N.

Definition getSettings : Db Settings :=
  t ← select_setting key_theme;
  s ← select_setting key_siteTitle;
  i ← select_setting key_siteIcon;
  mret {| theme := Some (default default_theme t);
          siteTitle := Some (default default_siteTitle s);
          siteIcon := Some (default default_siteIcon i) |}.

Definition validThemes : list jsstring :=
  [str "light"; str "dark"; str "forest"; str "ocean"; str "sunrise"; str "twilight"].

(** [x && bad(x)]: the test is made on a truthy value only. *)
Definition truthy_and (x : option jsstring) (bad : jsstring → bool) : bool :=
  match x with
  | Some s => truthy x && bad s
  | None => false
  end.

(** [if (x !== undefined) { upsert key x }] *)
Definition upsert_if_defined (k : jsstring) (x : option jsstring) : Db () :=
  match x with
  | Some v => upsert_setting k v
  | None => mret ()
  end.

Definition updateSettings (data : Settings) : Db Settings :=
  when (truthy_and (theme data) (λ t, negb (includes validThemes t)))
       (throw InvalidTheme);;
  when (truthy_and (siteTitle data) (λ s, 60 <? Z.of_nat (length s)))
       (throw SiteTitleTooLong);;
  when (truthy_and (siteIcon data) (λ s, 512 <? Z.of_nat (length s)))
       (throw SiteIconTooLong);;
  upsert_if_defined key_theme (theme data);;
  upsert_if_defined key_siteTitle (siteTitle data);;
  upsert_if_defined key_siteIcon (siteIcon data);;
  getSettings.

(** ** auth.ts and bookmarks/index.ts *)

(** [type BookmarkBody] *)
Record BookmarkBody := {
  b_title : option jsstring;
  b_url : option jsstring;
  b_category : option jsstring;
  b_description : option jsstring;
  b_visible : option bool
}.

(** What the handler reads of a [VercelRequest].  [req_body] is [None] when
    [parseJsonBody] rejects the body. *)
Record Request := {
  req_method : jsstring;
  req_action : option jsstring;      (* req.query.action *)
  req_url : option jsstring;         (* req.query.url *)
  req_authorization : option jsstring;
  req_body : option BookmarkBody
}.

Inductive Payload :=
  | NoContent
  | Bookmarks (l : list BookmarkRecord)
  | Bookmark (b : BookmarkRecord)
  | Scraped                                   (* title and description of a fetched page *)
  | Message (status : Z).                     (* sendError(res, status, text) *)

Record Response := {
  status : Z;
  payload : Payload
}.

Definition sendJson (status : Z) (p : Payload) : Response :=
  {| status := status; payload := p |}.

Definition sendError (status : Z) : Response :=
  {| status := status; payload := Message status |}.

(** [try { m } catch (error) { h }] *)
Definition try_catch {A} (m : Db A) (h : Db A) : Db A :=
  λ st, match m st with
        | (Returned a, st') => (Returned a, st')
        | (Thrown _, st') => h st'
        end.

(** [s.startsWith(p)] *)
Fixpoint startsWith (s p : jsstring) : bool :=
  match p, s with
  | [], _ => true
  | c :: p', d :: s' => bool_decide (c = d) && startsWith s' p'
  | _ :: _, [] => false
  end.

(** The ASCII case folding of a regular expression with flag [i] and
    without flag [u]: a code unit above 127 only matches itself. *)
Definition fold_case (c : N) : N :=
  if ((65 <=? c) && (c <=? 90))%N then (c + 32)%N else c.

(** [/^https?:\/\//i.test(s)] *)
Definition has_http_scheme (s : jsstring) : bool :=
  let l := fold_case <$> s in
  startsWith l (str "http://") || startsWith l (str "https://").

Definition sanitizeUrl (url : jsstring) : jsstring :=
  let trimmed := trim url in
  if has_http_scheme trimmed then trimmed else str "https://" ++ trimmed.

Section Endpoint.
(** [jwt.verify(token, secret)] of the jsonwebtoken package: the decoded
    username, or [None] where it throws (bad signature, expired). *)
Variable jwt_verify : jsstring → jsstring → option jsstring.
Variable JWT_SECRET : jsstring.

Definition verifyToken (token : jsstring) : option jsstring :=
  jwt_verify token JWT_SECRET.

(** [requireAuth(req, res)]: the 401 response it sends, or the identity. *)
Definition requireAuth (req : Request) : Response + jsstring :=
  match req_authorization req with
  | Some authHeader =>
      if truthy (Some authHeader) && startsWith authHeader (str "Bearer ") then
        let token := drop 7 authHeader in
        match verifyToken token with
        | Some decoded => inr decoded
        | None => inl (sendError 401)
        end
      else inl (sendError 401)
  | None => inl (sendError 401)
  end.

(** Modelled from the spec: [getAuthFromRequest] is imported from auth.ts
    by the handler but its definition is not part of the sources at hand.
    Following section 4.4 it extracts the bearer token from the
    Authorization header and yields the identity when [verifyToken]
    accepts the token; unlike [requireAuth] it sends no response. *)
Definition getAuthFromRequest (req : Request) : option jsstring :=
  match req_authorization req with
  | Some authHeader =>
      if startsWith authHeader (str "Bearer ")
      then verifyToken (drop 7 authHeader)
      else None
  | None => None
  end.

(** [handleOptions(req, res, methods)] of http.ts answers a preflight. *)
Definition handleOptions (req : Request) : bool :=
  bool_decide (req_method req = str "OPTIONS").

(** [handleParse]: the page is fetched from the network; only the shape
    of the answer is kept. *)
Definition handleParse (req : Request) : Response :=
  if truthy (req_url req) then sendJson 200 Scraped else sendError 400.

(** [x?.trim()] *)
Definition opt_trim (x : option jsstring) : option jsstring := trim <$> x.

(** [x || undefined] *)
Definition or_undefined (x : option jsstring) : optional jsstring :=
  match x with
  | Some (c :: s) => Val (c :: s)
  | _ => Undefined
  end.

Definition handler (uuid : jsstring) (req : Request) : Db Response :=
  if handleOptions req then mret (sendJson 200 NoContent)
  else if bool_decide (req_method req = str "GET")
          && bool_decide (req_action req = Some (str "parse")) then
    mret (handleParse req)
  else if bool_decide (req_method req = str "GET") then
    try_catch
      (let auth := getAuthFromRequest req in
       allBookmarks ← listBookmarks;
       let visibleBookmarks :=
         if auth is Some _ then allBookmarks
         else filter (λ item, bk_visible item ≠ Some false) allBookmarks in
       mret (sendJson 200 (Bookmarks visibleBookmarks)))
      (mret (sendError 500))
  else if bool_decide (req_method req = str "POST") then
    match requireAuth req with
    | inl unauthorized => mret unauthorized
    | inr _ =>
        try_catch
          (match req_body req with
           | None => throw TypeError
           | Some body =>
               let title := opt_trim (b_title body) in
               let url := opt_trim (b_url body) in
               match title, url with
               | Some (c :: t), Some (d :: u) =>
                   bookmark ← createBookmark uuid
                     {| nb_title := c :: t;
                        nb_url := sanitizeUrl (d :: u);
                        nb_category := or_undefined (opt_trim (b_category body));
                        nb_description := or_undefined (opt_trim (b_description body));
                        nb_visible := Some (nullish_opt (b_visible body) true) |};
                   mret (sendJson 201 (Bookmark bookmark))
               | _, _ => mret (sendError 400)
               end
           end)
          (mret (sendError 500))
    end
  else mret (sendError 405).
End Endpoint.

(** * Notions used by the statements *)

(** A string that does not begin with white space. *)
Definition starts_clean (s : jsstring) : Prop :=
  match s with
  | [] => True
  | c :: _ => isWhiteSpace c = false
  end.

Definition throws {A} (m : Db A) (st : Store) : Prop :=
  ∃ e, outcome_of (m st) = Thrown e.

Ltac db_unfold :=
  unfold mbind, db_bind, mret, db_ret, throw, when, try_catch,
    select_by_id, select_max_order, shift_orders, insert_bookmark,
    update_row, delete_by_id, update_order, select_ids,
    select_bookmarks_by_order, select_category_order,
    delete_category_order, upsert_category_order, upsert_setting,
    select_setting in *.

(** ** Settings *)

(** The constraints that [updateSettings] checks. *)
Definition valid_theme (t : jsstring) : Prop := t ∈ validThemes.
Definition valid_siteTitle (s : jsstring) : Prop := (length s ≤ 60)%nat.
Definition valid_siteIcon (s : jsstring) : Prop := (length s ≤ 512)%nat.

(** The patch carries, in this field, an invalid value that is truthy. *)
Definition rejected (x : option jsstring) (valid : jsstring → Prop) : Prop :=
  ∃ v, x = Some v ∧ ¬ valid v ∧ v ≠ [].

Definition some_rejected (data : Settings) : Prop :=
  rejected (theme data) valid_theme
  ∨ rejected (siteTitle data) valid_siteTitle
  ∨ rejected (siteIcon data) valid_siteIcon.

(** The settings table after the fields present in the patch are upserted. *)
Definition upsert_field (k : jsstring) (x : option jsstring)
    (m : gmap jsstring jsstring) : gmap jsstring jsstring :=
  match x with
  | Some v => <[k:=v]> m
  | None => m
  end.

Definition upserted (data : Settings) (m : gmap jsstring jsstring)
    : gmap jsstring jsstring :=
  upsert_field key_siteIcon (siteIcon data)
    (upsert_field key_siteTitle (siteTitle data)
       (upsert_field key_theme (theme data) m)).

Definition only_theme (t : jsstring) : Settings :=
  {| theme := Some t; siteTitle := None; siteIcon := None |}.

Definition empty_store : Store :=
  {| bookmarks := []; category_order := []; settings := ∅ |}.

(** A store whose settings hold theme 'dark'. *)
Definition dark_store : Store :=
  {| bookmarks := []; category_order := [];
     settings := {[ key_theme := str "dark" ]} |}.

(** ** Listing *)

(** The category-order table read in its order: what [listBookmarks] binds
    to [categoryOrder]. *)
Definition category_sequence (st : Store) : list jsstring :=
  co_category <$> sort (λ a b, co_order a - co_order b) (category_order st).

(** The first position of [x] in [l], if any. *)
Fixpoint position (l : list jsstring) (x : jsstring) : option nat :=
  match l with
  | [] => None
  | y :: l' => if decide (y = x) then Some 0%nat else S <$> position l' x
  end.

(** The normalised category of a listed bookmark, and its index in the
    category-order table ([None]: the category is not in the table). *)
Definition record_category (b : BookmarkRecord) : jsstring :=
  normalizeCategory (bk_category b).

Definition category_index (st : Store) (b : BookmarkRecord) : option nat :=
  position (category_sequence st) (record_category b).

(** Order on indices in which the unlisted categories come last. *)
Definition index_le (i j : option nat) : Prop :=
  match i, j with
  | Some a, Some b => (a ≤ b)%nat
  | _, None => True
  | None, Some _ => False
  end.

(** [b.order ?? 0] *)
Definition order_value (b : BookmarkRecord) : Z := nullish_opt (bk_order b) 0.

(** What [listBookmarks] returns on a store. *)
Definition listed (st : Store) : list BookmarkRecord :=
  match outcome_of (listBookmarks st) with
  | Returned l => l
  | Thrown _ => []
  end.

(** [item.visible !== false] *)
Definition shown (b : BookmarkRecord) : Prop := bk_visible b ≠ Some false.

(** A bookmark-listing request: GET, and not the page-scraping action. *)
Definition is_listing (req : Request) : Prop :=
  req_method req = str "GET" ∧ req_action req ≠ Some (str "parse").

(** The request presents a bearer token that [verifyToken] accepts. *)
Definition valid_bearer (jwt_verify : jsstring → jsstring → option jsstring)
    (secret : jsstring) (req : Request) : Prop :=
  ∃ token, req_authorization req = Some (str "Bearer " ++ token)
           ∧ is_Some (verifyToken jwt_verify secret token).

Definition example_row (id : string) (category : option jsstring) (visible : bool)
    (order : Z) : Row :=
  {| r_id := str id; r_title := str "title"; r_url := str "https://example.org";
     r_category := category; r_description := None;
     r_visible := visible; r_order := order |}.

(** Two categories, 'read' listed before 'work', and one hidden bookmark. *)
Definition listing_store : Store :=
  {| bookmarks := [example_row "a" (Some (str "work")) true 1;
                   example_row "b" (Some (str "read")) false 0;
                   example_row "c" (Some (str "work")) true 0];
     category_order := [{| co_category := str "work"; co_order := 1 |};
                        {| co_category := str "read"; co_order := 0 |}];
     settings := ∅ |}.

(** A verifier that accepts the token 'ok' only. *)
Definition example_verify (token secret : jsstring) : option jsstring :=
  if decide (token = str "ok") then Some (str "admin") else None.

Definition get_request (authorization : option jsstring) : Request :=
  {| req_method := str "GET"; req_action := None; req_url := None;
     req_authorization := authorization; req_body := None |}.

(** ** Reordering *)

(** The ids of the store that a reorder sequence does not mention, in the
    order in which the table holds them. *)
Definition missing_ids (order : list jsstring) (st : Store) : list jsstring :=
  filter (λ id, id ∉ order) (r_id <$> bookmarks st).

(** Two rows that differ at most in their order. *)
Definition same_but_order (r r' : Row) : Prop := r' = set_r_order (r_order r') r.

(** The order that a run of [update_order] over [ids], counting from [i],
    leaves on the rows of an id: the count at its last occurrence. *)
Fixpoint assigned (i : Z) (ids : list jsstring) (id : jsstring) : option Z :=
  match ids with
  | [] => None
  | x :: ids' =>
      match assigned (i + 1) ids' id with
      | Some o => Some o
      | None => if decide (x = id) then Some i else None
      end
  end.

Definition assign (i : Z) (ids : list jsstring) (r : Row) : Row :=
  match assigned i ids (r_id r) with
  | Some o => set_r_order o r
  | None => r
  end.

(** The table after a run of [update_order] over [ids], counting from [i]. *)
Fixpoint reordered (i : Z) (ids : list jsstring) (rows : list Row) : list Row :=
  match ids with
  | [] => rows
  | id :: ids' =>
      reordered (i + 1) ids'
        (sql_update (λ r, bool_decide (r_id r = id)) (set_r_order i) rows)
  end.

(** Bookmarks [a, b], both in category 'work'. *)
Definition pair_store : Store :=
  {| bookmarks := [example_row "a" (Some (str "work")) true 0;
                   example_row "b" (Some (str "work")) true 1];
     category_order := []; settings := ∅ |}.

(** The patch [{title: 'new'}]. *)
Definition title_patch : BookmarkPatch :=
  {| p_title := Some (str "new"); p_url := None; p_category := Undefined;
     p_description := Undefined; p_visible := None; p_order := None |}.

(** The store in which a, then b were created in category 'work', and the
    title of a was then changed: a has order 0 and b order 1, and a scan
    returns b first. *)
Definition retitle_patch : BookmarkPatch :=
  {| p_title := Some (str "new"); p_url := None; p_category := Val (str "work");
     p_description := Undefined; p_visible := None; p_order := None |}.

Definition retitled_store : Store :=
  state_of (updateBookmark (str "a") retitle_patch pair_store).

(** ** Columns *)

(** The value is not longer than a VARCHAR(n) column. *)
Definition fits (n : nat) (s : jsstring) : Prop := (length (chars s) ≤ n)%nat.

(** A string that does not end with white space. *)
Definition ends_clean (s : jsstring) : Prop :=
  match last s with
  | Some c => isWhiteSpace c = false
  | None => True
  end.

(** ** The order invariant *)

(** The category of a stored bookmark, as [updateBookmark] and
    [deleteBookmark] compute it from the row. *)
Definition category_of (r : Row) : jsstring :=
  normalizeCategory (of_option (r_category r)).

(** The orders of the bookmarks of a category. *)
Definition table_orders (c : jsstring) (rows : list Row) : list Z :=
  r_order <$> filter (λ r, category_of r = c) rows.

Definition orders_of (c : jsstring) (st : Store) : list Z :=
  table_orders c (bookmarks st).

(** The values are exactly 0, 1, ..., n-1, where n is their number. *)
Definition contiguous (l : list Z) : Prop :=
  l ≡ₚ seqZ 0 (Z.of_nat (length l)).

(** The invariant of section 3, for every category. *)
Definition order_invariant (st : Store) : Prop :=
  ∀ c, contiguous (orders_of c st).

(** The invariant for the named categories, the uncategorised bookmarks
    (category '') left aside. *)
Definition named_order_invariant (st : Store) : Prop :=
  ∀ c, c ≠ [] → contiguous (orders_of c st).

(** The stored category is NULL or a normalised, non-empty name: what every
    INSERT and UPDATE of the module writes. *)
Definition stored_normalised (r : Row) : Prop :=
  r_category r = or_null (category_of r).

(** Ids are unique (the primary key) and categories are stored normalised. *)
Definition table_ok (rows : list Row) : Prop :=
  NoDup (r_id <$> rows) ∧ Forall stored_normalised rows.

Definition well_formed (st : Store) : Prop := table_ok (bookmarks st).

(** Closing the gap above [o]. *)
Definition close_gap (o x : Z) : Z := if o <? x then x - 1 else x.

(** The row that the UPDATE of [shift_orders] leaves for [r]. *)
Definition shift_row (cat : option jsstring) (o : Z) (r : Row) : Row :=
  if sql_eq (r_category r) cat && (o <? r_order r)
  then set_r_order (r_order r - 1) r
  else r.

(** The table after the UPDATE of [shift_orders]. *)
Definition shifted (cat : option jsstring) (o : Z) (rows : list Row) : list Row :=
  sql_update (λ r, sql_eq (r_category r) cat && (o <? r_order r))
             (λ r, set_r_order (r_order r - 1) r) rows.

(** The mutating operations on bookmarks. *)
Inductive Op :=
  | Create (uuid : jsstring) (data : NewBookmark)
  | Update (id : jsstring) (data : BookmarkPatch)
  | Delete (id : jsstring).

Definition step (st : Store) (op : Op) : Store :=
  match op with
  | Create uuid data => state_of (createBookmark uuid data st)
  | Update id data => state_of (updateBookmark id data st)
  | Delete id => state_of (deleteBookmark id st)
  end.

Definition run (ops : list Op) (st : Store) : Store := foldl step st ops.

(** An operation that keeps the invariant on [st].  For an update of a
    stored bookmark: the patch names the category; when the bookmark stays
    in its category the patch does not set the order; when the bookmark
    changes category the database accepts the UPDATE of its row. *)
Definition admissible (st : Store) (op : Op) : Prop :=
  match op with
  | Update id data =>
      p_category data ≠ Undefined
      ∧ match filter (λ r, r_id r = id) (bookmarks st) with
        | [] => True
        | current :: _ =>
            if decide (normalizeCategory (p_category data) = category_of current)
            then p_order data = None
            else ¬ throws (updateBookmark id data) st
        end
  | _ => True
  end.

(** Every operation of the sequence is admissible on the store it is
    applied to. *)
Fixpoint admissible_run (ops : list Op) (st : Store) : Prop :=
  match ops with
  | [] => True
  | op :: ops' => admissible st op ∧ admissible_run ops' (step st op)
  end.

(** The table is well formed and the named categories are contiguous. *)
Definition table_good (rows : list Row) : Prop :=
  table_ok rows ∧ ∀ c, c ≠ [] → contiguous (table_orders c rows).

(** The row that the UPDATE of [updateBookmark] writes over [r]. *)
Definition written (title url : jsstring) (category description : option jsstring)
    (visible : bool) (order : Z) (r : Row) : Row :=
  {| r_id := r_id r; r_title := title; r_url := url;
     r_category := category; r_description := description;
     r_visible := visible; r_order := order |}.

(** The category and description that [updateBookmark] writes. *)
Definition patched_category (data : BookmarkPatch) (current : Row) : option jsstring :=
  match p_category data with
  | Undefined => opt_or_null (r_category current)
  | c => or_null (normalizeCategory c)
  end.

Definition patched_description (data : BookmarkPatch) (current : Row) : option jsstring :=
  match p_description data with
  | Undefined => opt_or_null (r_description current)
  | d => optional_or_null d
  end.

(** The title that [updateBookmark] hands to its UPDATE. *)
Definition patched_title (data : BookmarkPatch) (current : Row) : jsstring :=
  default (r_title current) (p_title data).

(** The row that [updateBookmark] writes over [r], the title and category
    being stored as [title] and [category] and the order being [order]. *)
Definition patched (title : jsstring) (category : option jsstring)
    (data : BookmarkPatch) (current : Row) (order : Z) (r : Row) : Row :=
  written title
          (default (r_url current) (p_url data))
          category
          (patched_description data current)
          (default (r_visible current) (p_visible data))
          order r.

(** The table on which [updateBookmark] runs the UPDATE of the row, and the
    order that it writes. *)
Definition moves (data : BookmarkPatch) (current : Row) : Prop :=
  normalizeCategory (p_category data) ≠ category_of current.

Definition before_write (data : BookmarkPatch) (current : Row) (rows : list Row)
    : list Row :=
  if decide (moves data current)
  then shifted (or_null (category_of current)) (r_order current) rows
  else rows.

Definition order_to_write (data : BookmarkPatch) (current : Row) (rows : list Row) : Z :=
  if decide (moves data current)
  then default (-1)
         (sql_max (r_order <$>
            in_category (or_null (normalizeCategory (p_category data)))
              (before_write data current rows)))
       + 1
  else default (r_order current) (p_order data).

(** The row that [createBookmark] inserts. *)
Definition created (uuid : jsstring) (data : NewBookmark) (rows : list Row) : Row :=
  {| r_id := uuid;
     r_title := nb_title data;
     r_url := nb_url data;
     r_category := or_null (normalizeCategory (nb_category data));
     r_description := optional_or_null (nb_description data);
     r_visible := nullish_opt (nb_visible data) true;
     r_order :=
       default (-1)
         (sql_max (r_order <$> in_category (or_null (normalizeCategory (nb_category data))) rows))
       + 1 |}.

(** The database accepts the values that [createBookmark] inserts. *)
Definition insertable (uuid : jsstring) (data : NewBookmark) (st : Store) : Prop :=
  fits 255 uuid ∧ fits 500 (nb_title data)
  ∧ fits 255 (normalizeCategory (nb_category data))
  ∧ int4 (r_order (created uuid data (bookmarks st))).

(** ** Example stores and arguments *)

(** [{title: 'title', url: 'https://example.org'}], in the given category. *)
Definition new_bookmark (category : optional jsstring) : NewBookmark :=
  {| nb_title := str "title"; nb_url := str "https://example.org";
     nb_category := category; nb_description := Undefined;
     nb_visible := Some true |}.

(** One uncategorised bookmark. *)
Definition loose_store : Store :=
  {| bookmarks := [example_row "a" None true 0];
     category_order := []; settings := ∅ |}.

(** Two uncategorised bookmarks with orders 0 and 1. *)
Definition loose_pair_store : Store :=
  {| bookmarks := [example_row "a" None true 0; example_row "b" None true 1];
     category_order := []; settings := ∅ |}.

(** Three bookmarks of category 'work' with orders 0, 1, 2. *)
Definition triple_store : Store :=
  {| bookmarks := [example_row "a" (Some (str "work")) true 0;
                   example_row "b" (Some (str "work")) true 1;
                   example_row "c" (Some (str "work")) true 2];
     category_order := []; settings := ∅ |}.

(** The patch [{category: 'work', order: 5}]. *)
Definition order_patch : BookmarkPatch :=
  {| p_title := None; p_url := None; p_category := Val (str "work");
     p_description := Undefined; p_visible := None; p_order := Some 5 |}.

(** The patch [{category: c, order: o}]. *)
Definition category_order_patch (c : jsstring) (o : Z) : BookmarkPatch :=
  {| p_title := None; p_url := None; p_category := Val c;
     p_description := Undefined; p_visible := None; p_order := Some o |}.

(** The patch [{category: c}]. *)
Definition category_patch (c : jsstring) : BookmarkPatch :=
  {| p_title := None; p_url := None; p_category := Val c;
     p_description := Undefined; p_visible := None; p_order := None |}.

(** A category name of 256 characters. *)
Definition long_name : jsstring := replicate 256 120%N.

Definition example_ops : list Op :=
  [Create (str "c") (new_bookmark (Val (str " work ")));
   Update (str "a") (category_order_patch (str "read") 7);
   Update (str "b") (category_patch (str "work"));
   Delete (str "b")].

(** * Notions used by the further properties *)

(** ** Settings *)

(** What [getSettings] returns on a store. *)
Definition read_settings (st : Store) : Settings :=
  match outcome_of (getSettings st) with
  | Returned s => s
  | Thrown _ => {| theme := None; siteTitle := None; siteIcon := None |}
  end.

(** The keys of the fields that a patch of the settings provides. *)
Definition patch_keys (data : Settings) : list jsstring :=
  (if theme data is Some _ then [key_theme] else [])
  ++ (if siteTitle data is Some _ then [key_siteTitle] else [])
  ++ (if siteIcon data is Some _ then [key_siteIcon] else []).

(** A store with a theme, a title and a setting of another module. *)
Definition settings_store : Store :=
  {| bookmarks := []; category_order := [];
     settings := {[ key_theme := str "forest";
                    key_siteTitle := str "Links";
                    str "storage_config" := str "null" ]} |}.

(** The patch [{theme: 'ocean', siteIcon: ''}]. *)
Definition ocean_patch : Settings :=
  {| theme := Some (str "ocean"); siteTitle := None; siteIcon := Some [] |}.

(** Closes the impossible cases on the keys of the settings. *)
Ltac settings_keys :=
  exfalso;
  match goal with
  | H : ¬ (_ ∧ _) |- _ => apply H; split; [reflexivity|eexists; reflexivity]
  | H : _ ∧ is_Some None |- _ => destruct H as [_ [? H]]; discriminate H
  | H : _ = _ ∧ _ |- _ => destruct H as [H _]; discriminate H
  end.

(** ** The category-order table *)

(** The effect of one upsert of [reorderBookmarkCategories] on the table. *)
Definition upsert_one (i : Z) (c : jsstring) (tbl : list CategoryOrderRow)
    : list CategoryOrderRow :=
  let new := {| co_category := c; co_order := i |} in
  if bool_decide (c ∈ co_category <$> tbl)
  then sql_update (λ r, bool_decide (co_category r = c)) (λ _, new) tbl
  else tbl ++ [new].

(** The upserts of a sequence, counting from [i]. *)
Fixpoint upsert_all (i : Z) (l : list jsstring) (tbl : list CategoryOrderRow)
    : list CategoryOrderRow :=
  match l with
  | [] => tbl
  | c :: l' => upsert_all (i + 1) l' (upsert_one i c tbl)
  end.

(** The rows [(c0, i), (c1, i+1), ...]. *)
Fixpoint rows_from (i : Z) (l : list jsstring) : list CategoryOrderRow :=
  match l with
  | [] => []
  | c :: l' => {| co_category := c; co_order := i |} :: rows_from (i + 1) l'
  end.

(** A store with a category order and bookmarks. *)
Definition ordered_store : Store :=
  {| bookmarks := [example_row "a" (Some (str "work")) true 0;
                   example_row "b" (Some (str "read")) true 0];
     category_order := [{| co_category := str "work"; co_order := 0 |};
                        {| co_category := str "old"; co_order := 1 |}];
     settings := ∅ |}.

(** ** Every call of the module *)

Inductive Call :=
  | CallCreate (uuid : jsstring) (data : NewBookmark)
  | CallUpdate (id : jsstring) (data : BookmarkPatch)
  | CallDelete (id : jsstring)
  | CallReorder (order : list jsstring)
  | CallReorderCategories (order : list jsstring)
  | CallUpdateSettings (data : Settings).

Definition call (st : Store) (c : Call) : Store :=
  match c with
  | CallCreate uuid data => state_of (createBookmark uuid data st)
  | CallUpdate id data => state_of (updateBookmark id data st)
  | CallDelete id => state_of (deleteBookmark id st)
  | CallReorder order => state_of (reorderBookmarks order st)
  | CallReorderCategories order => state_of (reorderBookmarkCategories order st)
  | CallUpdateSettings data => state_of (updateSettings data st)
  end.

Definition calls (cs : list Call) (st : Store) : Store := foldl call st cs.

(** The patch [{order: 7}]. *)
Definition bare_order_patch : BookmarkPatch :=
  {| p_title := None; p_url := None; p_category := Undefined;
     p_description := Undefined; p_visible := None; p_order := Some 7 |}.

Definition example_calls : list Call :=
  [CallCreate (str "a") (new_bookmark (Val (str " work ")));
   CallCreate (str "b") (new_bookmark Undefined);
   CallCreate (str "a") (new_bookmark Null);
   CallUpdate (str "a") bare_order_patch;
   CallReorder [str "b"; str "zz"];
   CallReorderCategories [str "work"; str "work"];
   CallUpdateSettings ocean_patch;
   CallDelete (str "b")].

(** ** Updates *)

(** Bookmarks a, b of category 'work' and c of category 'read'. *)
Definition mixed_store : Store :=
  {| bookmarks := [example_row "a" (Some (str "work")) true 0;
                   example_row "b" (Some (str "work")) true 1;
                   example_row "c" (Some (str "read")) true 0];
     category_order := []; settings := ∅ |}.

(** The patch [{title: 'new', description: '', order: 9, category: ' read '}]. *)
Definition move_patch : BookmarkPatch :=
  {| p_title := Some (str "new"); p_url := None; p_category := Val (str " read ");
     p_description := Val []; p_visible := None; p_order := Some 9 |}.

(** ** Requests *)

(** A field of the body that is absent or blank: [!x?.trim()]. *)
Definition blank (x : option jsstring) : Prop :=
  match x with
  | Some s => trim s = []
  | None => True
  end.

Definition post_request (authorization : option jsstring) (body : option BookmarkBody)
    : Request :=
  {| req_method := str "POST"; req_action := None; req_url := None;
     req_authorization := authorization; req_body := body |}.

(** The data that the handler hands to [createBookmark] for a body whose
    title is [t] and whose url is [u]. *)
Definition posted (t u : jsstring) (body : BookmarkBody) : NewBookmark :=
  {| nb_title := trim t;
     nb_url := sanitizeUrl (trim u);
     nb_category := or_undefined (opt_trim (b_category body));
     nb_description := or_undefined (opt_trim (b_description body));
     nb_visible := Some (nullish_opt (b_visible body) true) |}.

(** The body [{title: ' Docs ', url: 'example.org/docs', category: ' work '}]. *)
Definition example_body : BookmarkBody :=
  {| b_title := Some (str " Docs "); b_url := Some (str "example.org/docs");
     b_category := Some (str " work "); b_description := None;
     b_visible := None |}.

(** The body [{title: '  ', url: 'example.org'}]. *)
Definition blank_body : BookmarkBody :=
  {| b_title := Some (str "  "); b_url := Some (str "example.org");
     b_category := None; b_description := None; b_visible := None |}.
(** * Properties *)

(** ** Strings *)

Lemma trimStart_clean s : starts_clean (trimStart s).
Proof.
  induction s as [|c s IH]; simpl; [done|].
  destruct (isWhiteSpace c) eqn:E; [done|]. simpl. done.
Qed.

Lemma trimStart_id s : starts_clean s → trimStart s = s.
Proof. destruct s as [|c s]; simpl; [done|]. by intros ->. Qed.

Lemma trimEnd_clean s : starts_clean s → starts_clean (trimEnd s).
Proof.
  destruct s as [|c s]; simpl; [done|]. intros E.
  destruct (trimEnd s); rewrite ?E; done.
Qed.

Lemma trimEnd_idemp s : trimEnd (trimEnd s) = trimEnd s.
Proof.
  induction s as [|c s IH]; simpl; [done|].
  destruct (trimEnd s) as [|d t] eqn:E.
  - destruct (isWhiteSpace c) eqn:W; simpl; by rewrite ?W.
  - change (trimEnd (c :: d :: t)) with
      (match trimEnd (d :: t) with
       | [] => if isWhiteSpace c then [] else [c]
       | u => c :: u
       end).
    by rewrite IH.
Qed.

Lemma trim_idemp s : trim (trim s) = trim s.
Proof.
  unfold trim. rewrite (trimStart_id (trimEnd _)).
  - apply trimEnd_idemp.
  - apply trimEnd_clean, trimStart_clean.
Qed.

Lemma or_str_nil s : or_str s [] = s.
Proof. by destruct s. Qed.

Lemma normalizeCategory_trim x : normalizeCategory x = trim (nullish x []).
Proof. unfold normalizeCategory. apply or_str_nil. Qed.

(** Writing a normalised category and reading it back normalises to the
    same category. *)
Lemma normalizeCategory_stored x :
  normalizeCategory (of_option (or_null (normalizeCategory x))) = normalizeCategory x.
Proof.
  rewrite !normalizeCategory_trim.
  destruct (trim (nullish x [])) as [|c s] eqn:E; simpl; [done|].
  rewrite <- E. apply trim_idemp.
Qed.

Lemma trimEnd_ends_clean s : ends_clean (trimEnd s).
Proof.
  unfold ends_clean. induction s as [|c s IH]; simpl; [done|].
  destruct (trimEnd s) as [|d t] eqn:E.
  - destruct (isWhiteSpace c) eqn:W; simpl; done.
  - exact IH.
Qed.

Lemma normalizeCategory_ends_clean x : ends_clean (normalizeCategory x).
Proof. rewrite normalizeCategory_trim. apply trimEnd_ends_clean. Qed.

(** ** The embedding on small inputs *)

Example normalizeCategory_trims :
  normalizeCategory (Val (str "  to read ")) = str "to read"
  ∧ normalizeCategory (Val (str "   ")) = []
  ∧ normalizeCategory Null = []
  ∧ normalizeCategory Undefined = [].
Proof. repeat split; reflexivity. Qed.

Example sanitizeUrl_scheme :
  sanitizeUrl (str " HTTPS://example.org ") = str "HTTPS://example.org"
  ∧ sanitizeUrl (str "example.org") = str "https://example.org".
Proof. split; reflexivity. Qed.

Example indexOf_first :
  indexOf [str "a"; str "b"; str "a"] (str "a") = 0
  ∧ indexOf [str "a"; str "b"; str "a"] (str "b") = 1
  ∧ indexOf [str "a"; str "b"; str "a"] (str "c") = -1.
Proof. repeat split; reflexivity. Qed.

(** The sort keeps the bookmarks of equal key in their order. *)
Example sort_stable :
  sort (λ a b : Z * Z, a.1 - b.1) [(2, 0); (1, 1); (2, 2); (1, 3)]
  = [(1, 1); (1, 3); (2, 0); (2, 2)].
Proof. reflexivity. Qed.

(** ** Missing ids (C9) *)

Lemma select_absent (id : jsstring) (rows : list Row) :
  id ∉ r_id <$> rows → filter (λ r, r_id r = id) rows = [].
Proof.
  intros H. induction rows as [|r rows IH]; [done|].
  rewrite fmap_cons, not_elem_of_cons in H. destruct H as [Hne H].
  rewrite filter_cons_False by congruence. auto.
Qed.

(** C9: on an id that no bookmark has, [updateBookmark] and
    [deleteBookmark] both return null and leave the whole store (bookmarks,
    category order, settings) as it was. *)
Theorem missing_id_is_null_and_noop (st : Store) (id : jsstring) (data : BookmarkPatch) :
  id ∉ r_id <$> bookmarks st →
  updateBookmark id data st = (Returned None, st)
  ∧ deleteBookmark id st = (Returned None, st).
Proof.
  intros H. apply select_absent in H.
  unfold updateBookmark, deleteBookmark. db_unfold.
  by rewrite H.
Qed.

Lemma missing_id_is_null_and_noop_witness :
  updateBookmark (str "zz") title_patch pair_store = (Returned None, pair_store)
  ∧ deleteBookmark (str "zz") pair_store = (Returned None, pair_store).
Proof.
  apply (missing_id_is_null_and_noop pair_store (str "zz") title_patch).
  apply (bool_decide_unpack _). by vm_compute.
Defined.

(** ** Settings (C8, C10) *)

Lemma truthy_and_true (x : option jsstring) (bad : jsstring → bool) (valid : jsstring → Prop) :
  (∀ v, bad v = true ↔ ¬ valid v) →
  truthy_and x bad = true ↔ rejected x valid.
Proof.
  intros Hbad. unfold truthy_and, rejected. split.
  - destruct x as [[|c s]|]; simpl; try done.
    intros H. exists (c :: s). by rewrite <- Hbad.
  - intros (v & -> & Hv & Hne). destruct v as [|c s]; [done|].
    simpl. by apply Hbad.
Qed.

Lemma theme_check (data : Settings) :
  truthy_and (theme data) (λ t, negb (includes validThemes t)) = true
  ↔ rejected (theme data) valid_theme.
Proof.
  apply truthy_and_true. intros v. unfold includes, valid_theme.
  rewrite negb_true_iff, bool_decide_eq_false. done.
Qed.

Lemma siteTitle_check (data : Settings) :
  truthy_and (siteTitle data) (λ s, 60 <? Z.of_nat (length s)) = true
  ↔ rejected (siteTitle data) valid_siteTitle.
Proof.
  apply truthy_and_true. intros v. unfold valid_siteTitle.
  rewrite Z.ltb_lt. lia.
Qed.

Lemma siteIcon_check (data : Settings) :
  truthy_and (siteIcon data) (λ s, 512 <? Z.of_nat (length s)) = true
  ↔ rejected (siteIcon data) valid_siteIcon.
Proof.
  apply truthy_and_true. intros v. unfold valid_siteIcon.
  rewrite Z.ltb_lt. lia.
Qed.

(** Either a check rejects the patch, and nothing is written, or every
    field present in the patch is upserted and the settings are read back. *)
Lemma updateSettings_cases (data : Settings) (st : Store) :
  (some_rejected data ∧ ∃ e, updateSettings data st = (Thrown e, st))
  ∨ (¬ some_rejected data
     ∧ updateSettings data st
       = getSettings (with_settings st (upserted data (settings st)))).
Proof.
  unfold some_rejected, updateSettings.
  destruct (truthy_and (theme data) _) eqn:Et.
  { left. split; [left; by apply theme_check|]. by exists InvalidTheme. }
  destruct (truthy_and (siteTitle data) _) eqn:Es.
  { left. split; [right; left; by apply siteTitle_check|].
    by exists SiteTitleTooLong. }
  destruct (truthy_and (siteIcon data) _) eqn:Ei.
  { left. split; [right; right; by apply siteIcon_check|].
    by exists SiteIconTooLong. }
  right. split.
  - rewrite <- theme_check, <- siteTitle_check, <- siteIcon_check.
    rewrite Et, Es, Ei. intros [?|[?|?]]; discriminate.
  - unfold upserted. destruct st, data as [[t|] [s|] [i|]]; reflexivity.
Qed.

(** A rejected patch leaves the store as it was. *)
Lemma updateSettings_throw_unchanged (data : Settings) (st : Store) e :
  outcome_of (updateSettings data st) = Thrown e →
  state_of (updateSettings data st) = st.
Proof.
  destruct (updateSettings_cases data st) as [(_ & e' & ->)|(_ & ->)]; [done|].
  discriminate.
Qed.

(** Invalid values that are truthy are rejected: a theme outside the six
    names unless it is the empty string, a title above 60 code units, an
    icon above 512. *)
Lemma updateSettings_rejects (data : Settings) (st : Store) :
  some_rejected data → throws (updateSettings data) st.
Proof.
  intros H. unfold throws.
  destruct (updateSettings_cases data st) as [(_ & e & ->)|(Hn & _)].
  - by exists e.
  - done.
Qed.

(** C10: [updateSettings] throws exactly when some field holds an invalid
    value that is truthy; where it does not throw, every field present in
    the patch (the empty string included) is upserted; so a patch whose
    theme is the empty string is accepted and the empty theme, which is not
    one of the valid themes, is stored. *)
Theorem updateSettings_checks_truthy_values_only (data : Settings) (st : Store) :
  (throws (updateSettings data) st ↔ some_rejected data)
  ∧ (¬ throws (updateSettings data) st →
     settings (state_of (updateSettings data st)) = upserted data (settings st))
  ∧ ¬ throws (updateSettings (only_theme [])) st
  ∧ settings (state_of (updateSettings (only_theme []) st)) !! key_theme = Some []
  ∧ ¬ valid_theme [].
Proof.
  assert (Hiff : throws (updateSettings data) st ↔ some_rejected data).
  { split; [|apply updateSettings_rejects].
    intros [e He].
    destruct (updateSettings_cases data st) as [(H & _)|(_ & Heq)]; [done|].
    rewrite Heq in He. discriminate. }
  split; [done|]. split; [|split; [|split]].
  - intros Hn. destruct (updateSettings_cases data st) as [(H & _)|(_ & ->)].
    + by apply Hiff in H.
    + done.
  - intros [e He]. vm_compute in He. discriminate.
  - unfold only_theme, updateSettings. simpl. apply lookup_insert_eq.
  - unfold valid_theme, validThemes. rewrite !elem_of_cons, elem_of_nil.
    intros H. repeat destruct H as [H|H]; try discriminate H. done.
Qed.

Lemma updateSettings_checks_truthy_values_only_witness :
  settings (state_of (updateSettings (only_theme (str "dark")) dark_store))
  = upserted (only_theme (str "dark")) (settings dark_store).
Proof.
  apply (updateSettings_checks_truthy_values_only (only_theme (str "dark")) dark_store).
  intros [e He]. vm_compute in He. discriminate.
Defined.

(** C8, at the failing input: the theme '' is outside the six valid
    themes, yet [updateSettings({theme: ''})] returns instead of throwing
    and replaces the stored theme 'dark' (stored by
    [updateSettings({theme: 'dark'})] on the empty store) by ''. *)
Theorem updateSettings_accepts_empty_theme :
  state_of (updateSettings (only_theme (str "dark")) empty_store) = dark_store
  ∧ ¬ valid_theme []
  ∧ updateSettings (only_theme []) dark_store
    = (Returned {| theme := Some [];
                   siteTitle := Some default_siteTitle;
                   siteIcon := Some default_siteIcon |},
       with_settings dark_store {[ key_theme := [] ]}).
Proof.
  split; [|split].
  - by vm_compute.
  - unfold valid_theme, validThemes. rewrite !elem_of_cons, elem_of_nil.
    intros H. repeat destruct H as [H|H]; try discriminate H. done.
  - unfold only_theme, updateSettings, dark_store, with_settings. simpl.
    unfold getSettings. db_unfold. simpl.
    rewrite insert_singleton_eq. rewrite lookup_singleton_eq.
    rewrite !lookup_singleton_ne by (by vm_compute). done.
Qed.

(** ** Sorting *)

Section SortProperties.
Context {A : Type} (cmp : A → A → Z).

Let le (a b : A) : Prop := cmp a b ≤ 0.

Lemma sort_insert_perm x l : sort_insert cmp x l ≡ₚ x :: l.
Proof.
  induction l as [|y l IH]; simpl; [done|].
  destruct (cmp x y <=? 0); [done|].
  rewrite IH. apply Permutation_swap.
Qed.

Lemma sort_perm l : sort cmp l ≡ₚ l.
Proof.
  induction l as [|x l IH]; simpl; [done|].
  by rewrite sort_insert_perm, IH.
Qed.

Hypothesis cmp_total : ∀ a b, le a b ∨ le b a.
Hypothesis cmp_trans : ∀ a b c, le a b → le b c → le a c.

Lemma sort_insert_sorted x l :
  StronglySorted le l → StronglySorted le (sort_insert cmp x l).
Proof.
  induction l as [|y l IH]; simpl; intros Hs.
  - repeat constructor.
  - apply StronglySorted_cons in Hs as [Hy Hs].
    destruct (cmp x y <=? 0) eqn:E.
    + apply Z.leb_le in E. apply StronglySorted_cons. split.
      * constructor; [done|].
        eapply Forall_impl; [exact Hy|]. intros z Hz. by eapply cmp_trans.
      * by apply StronglySorted_cons.
    + apply Z.leb_gt in E. apply StronglySorted_cons. split; [|auto].
      rewrite sort_insert_perm. constructor; [|done].
      destruct (cmp_total x y) as [H|H]; [unfold le in H; lia|done].
Qed.

Lemma sort_sorted l : StronglySorted le (sort cmp l).
Proof.
  induction l as [|x l IH]; simpl; [constructor|].
  by apply sort_insert_sorted.
Qed.
End SortProperties.

Lemma StronglySorted_pairs {A} (R : A → A → Prop) (l : list A) i j a b :
  StronglySorted R l → (i < j)%nat → l !! i = Some a → l !! j = Some b → R a b.
Proof.
  intros Hs. revert i j. induction Hs as [|x l Hs IH Hx]; intros i j Hij Ha Hb.
  - done.
  - destruct j as [|j]; [lia|]. destruct i as [|i]; simpl in *.
    + injection Ha as ->. rewrite Forall_forall in Hx.
      apply Hx. by eapply list_elem_of_lookup_2.
    + apply (IH i j); [lia|done|done].
Qed.

(** ** Listing (C6) *)

Lemma indexOf_position l x :
  indexOf l x = match position l x with
                | Some i => Z.of_nat i
                | None => -1
                end.
Proof.
  induction l as [|y l IH]; simpl; [done|].
  destruct (decide (y = x)); [done|]. rewrite IH.
  destruct (position l x) as [i|]; simpl; [|done].
  destruct (Z.of_nat i =? -1) eqn:E; lia.
Qed.

(** [position] is the first index at which the element occurs. *)
Lemma position_Some l x i :
  position l x = Some i ↔ l !! i = Some x ∧ ∀ j, (j < i)%nat → l !! j ≠ Some x.
Proof.
  revert i. induction l as [|y l IH]; intros i; simpl.
  - split; [done|]. by intros [? _].
  - destruct (decide (y = x)) as [->|Hne].
    + split.
      * intros [= <-]. split; [done|]. lia.
      * intros [Hi Hmin]. destruct i as [|i]; [done|].
        exfalso. apply (Hmin 0%nat); [lia|done].
    + destruct i as [|i].
      * split.
        -- destruct (position l x); discriminate.
        -- intros [[= ?] _]. done.
      * split.
        -- intros H.
           assert (position l x = Some i) as Hp
             by (destruct (position l x); simpl in H; congruence).
           apply IH in Hp as [H1 H2]. split; [done|].
           intros [|j] Hj; simpl; [congruence|]. apply H2. lia.
        -- intros [H1 H2]. simpl in H1.
           assert (position l x = Some i) as Hp.
           { apply IH. split; [done|]. intros j Hj. apply (H2 (S j)). lia. }
           by rewrite Hp.
Qed.

Lemma position_None l x : position l x = None ↔ x ∉ l.
Proof.
  induction l as [|y l IH]; simpl.
  - split; [intros _; apply not_elem_of_nil|done].
  - rewrite not_elem_of_cons. destruct (decide (y = x)) as [->|Hne].
    + split; [done|]. by intros [? _].
    + rewrite <- IH. destruct (position l x); simpl;
        (split; [done|]); by intros [_ ?].
Qed.

Lemma compareBookmarks_total co a b :
  compareBookmarks co a b ≤ 0 ∨ compareBookmarks co b a ≤ 0.
Proof. unfold compareBookmarks. repeat case_decide; lia. Qed.

Lemma compareBookmarks_trans co a b c :
  compareBookmarks co a b ≤ 0 → compareBookmarks co b c ≤ 0 →
  compareBookmarks co a c ≤ 0.
Proof. unfold compareBookmarks. repeat case_decide; lia. Qed.

Lemma compareBookmarks_le st a b :
  compareBookmarks (category_sequence st) a b ≤ 0 →
  index_le (category_index st a) (category_index st b)
  ∧ (record_category a = record_category b → order_value a ≤ order_value b).
Proof.
  unfold compareBookmarks, category_index, record_category, order_value.
  rewrite !indexOf_position. intros H. split.
  - destruct (position _ (normalizeCategory (bk_category a))) as [i|],
      (position _ (normalizeCategory (bk_category b))) as [j|];
      simpl; repeat case_decide; try done; lia.
  - intros E. rewrite E in H. case_decide; [done|lia].
Qed.

Lemma listBookmarks_returns st :
  listBookmarks st = (Returned (listed st), st).
Proof. reflexivity. Qed.

Lemma listed_perm st : listed st ≡ₚ record_of_row <$> bookmarks st.
Proof.
  unfold listed, listBookmarks. db_unfold. simpl.
  by rewrite !sort_perm.
Qed.

(** C6: [listBookmarks] returns every bookmark of the store, in a sequence
    where a bookmark never comes after one whose normalised category has a
    greater index in the category-order table, the categories that are not
    in the table coming last, and where bookmarks of the same category are
    in ascending order. *)
Theorem listBookmarks_sorted (st : Store) :
  listBookmarks st = (Returned (listed st), st)
  ∧ listed st ≡ₚ record_of_row <$> bookmarks st
  ∧ ∀ i j a b, (i < j)%nat →
      listed st !! i = Some a → listed st !! j = Some b →
      index_le (category_index st a) (category_index st b)
      ∧ (record_category a = record_category b → order_value a ≤ order_value b).
Proof.
  split; [apply listBookmarks_returns|]. split; [apply listed_perm|].
  intros i j a b Hij Ha Hb. apply compareBookmarks_le.
  eapply (StronglySorted_pairs (λ a b, compareBookmarks (category_sequence st) a b ≤ 0));
    [|exact Hij|exact Ha|exact Hb].
  apply sort_sorted.
  - apply compareBookmarks_total.
  - apply compareBookmarks_trans.
Qed.

Lemma listBookmarks_sorted_witness :
  index_le (category_index listing_store (record_of_row (example_row "b" (Some (str "read")) false 0)))
           (category_index listing_store (record_of_row (example_row "c" (Some (str "work")) true 0)))
  ∧ (record_category (record_of_row (example_row "c" (Some (str "work")) true 0))
     = record_category (record_of_row (example_row "a" (Some (str "work")) true 1)) →
     order_value (record_of_row (example_row "c" (Some (str "work")) true 0))
     ≤ order_value (record_of_row (example_row "a" (Some (str "work")) true 1))).
Proof.
  split.
  - apply (listBookmarks_sorted listing_store) with (i := 0%nat) (j := 1%nat);
      [lia|reflexivity|reflexivity].
  - apply (listBookmarks_sorted listing_store) with (i := 1%nat) (j := 2%nat);
      [lia|reflexivity|reflexivity].
Defined.

(** ** The bookmark endpoint (C7) *)

Section EndpointProperties.
Variable jwt_verify : jsstring → jsstring → option jsstring.
Variable JWT_SECRET : jsstring.

Lemma startsWith_app (p s : jsstring) : startsWith (p ++ s) p = true.
Proof.
  induction p as [|c p IH]; simpl; [by destruct s|].
  by rewrite bool_decide_eq_true_2.
Qed.

Lemma startsWith_split (s p : jsstring) :
  startsWith s p = true → s = p ++ drop (length p) s.
Proof.
  revert s. induction p as [|c p IH]; intros s; [done|].
  destruct s as [|d s]; simpl; [done|].
  destruct (bool_decide (c = d)) eqn:E; simpl; [|done].
  apply bool_decide_eq_true in E as ->. intros H.
  f_equal. by apply IH.
Qed.

Lemma getAuthFromRequest_valid (req : Request) :
  is_Some (getAuthFromRequest jwt_verify JWT_SECRET req)
  ↔ valid_bearer jwt_verify JWT_SECRET req.
Proof.
  unfold getAuthFromRequest, valid_bearer. split.
  - destruct (req_authorization req) as [h|]; [|by intros [? ?]].
    destruct (startsWith h (str "Bearer ")) eqn:E; [|by intros [? ?]].
    apply startsWith_split in E.
    intros Hv. exists (drop 7 h). by split; [rewrite E at 1|].
  - intros (token & -> & Hd).
    rewrite startsWith_app. simpl. by rewrite drop_0.
Qed.

(** C7: on a bookmark-listing GET, a request without a valid bearer token
    is answered with exactly the listed bookmarks whose [visible] is not
    false, a request with a valid token with all of them; the store is
    only read. *)
Theorem get_bookmarks_filters_hidden (uuid : jsstring) (req : Request) (st : Store) :
  is_listing req →
  (¬ valid_bearer jwt_verify JWT_SECRET req →
     handler jwt_verify JWT_SECRET uuid req st
     = (Returned (sendJson 200 (Bookmarks (filter shown (listed st)))), st)
     ∧ ∀ b, b ∈ filter shown (listed st) ↔ b ∈ listed st ∧ bk_visible b ≠ Some false)
  ∧ (valid_bearer jwt_verify JWT_SECRET req →
     handler jwt_verify JWT_SECRET uuid req st
     = (Returned (sendJson 200 (Bookmarks (listed st))), st)).
Proof.
  intros [Hm Ha]. unfold handler, handleOptions. rewrite Hm.
  rewrite (bool_decide_eq_false_2 (str "GET" = str "OPTIONS")) by discriminate.
  rewrite (bool_decide_eq_false_2 (req_action req = _)) by done.
  rewrite andb_false_r.
  rewrite (bool_decide_eq_true_2 (str "GET" = str "GET")) by done.
  unfold try_catch, mbind, db_bind. rewrite listBookmarks_returns.
  split; intros Hv.
  - rewrite <- getAuthFromRequest_valid in Hv.
    destruct (getAuthFromRequest _ _ req); [by destruct Hv|].
    split; [done|]. intros b. rewrite list_elem_of_filter. unfold shown. tauto.
  - rewrite <- getAuthFromRequest_valid in Hv.
    destruct Hv as [d ->]. done.
Qed.
End EndpointProperties.

Lemma get_bookmarks_filters_hidden_witness :
  handler example_verify [] [] (get_request None) listing_store
  = (Returned (sendJson 200 (Bookmarks
       [record_of_row (example_row "c" (Some (str "work")) true 0);
        record_of_row (example_row "a" (Some (str "work")) true 1)])),
     listing_store)
  ∧ handler example_verify [] [] (get_request (Some (str "Bearer ok"))) listing_store
    = (Returned (sendJson 200 (Bookmarks
         [record_of_row (example_row "b" (Some (str "read")) false 0);
          record_of_row (example_row "c" (Some (str "work")) true 0);
          record_of_row (example_row "a" (Some (str "work")) true 1)])),
       listing_store).
Proof.
  split.
  - apply (get_bookmarks_filters_hidden example_verify [] [] (get_request None) listing_store).
    + split; [reflexivity|discriminate].
    + intros (token & H & _). discriminate H.
  - apply (get_bookmarks_filters_hidden example_verify [] []
             (get_request (Some (str "Bearer ok"))) listing_store).
    + split; [reflexivity|discriminate].
    + exists (str "ok"). split; [reflexivity|]. by exists (str "admin").
Defined.

(** ** Filters *)

Section Filters.
Context {A B : Type}.
Context (P Q : A → Prop) `{!∀ x, Decision (P x)} `{!∀ x, Decision (Q x)}.

Lemma filter_ext_in (l : list A) :
  (∀ x, x ∈ l → P x ↔ Q x) → filter P l = filter Q l.
Proof.
  induction l as [|x l IH]; intros Hl; [done|].
  rewrite !filter_cons. rewrite IH by (intros y Hy; apply Hl; by right).
  assert (P x ↔ Q x) as Hx by (apply Hl; by left).
  destruct (decide (P x)), (decide (Q x)); tauto.
Qed.

Lemma filter_all (l : list A) : (∀ x, x ∈ l → P x) → filter P l = l.
Proof.
  induction l as [|x l IH]; intros Hl; [done|].
  rewrite filter_cons_True by (apply Hl; by left).
  f_equal. apply IH. intros y Hy. apply Hl. by right.
Qed.

Lemma filter_fmap_comm (R : B → Prop) `{!∀ y, Decision (R y)} (f : A → B) (l : list A) :
  (∀ x, R (f x) ↔ P x) → filter R (f <$> l) = f <$> filter P l.
Proof.
  intros Hf. induction l as [|x l IH]; [done|].
  rewrite fmap_cons, !filter_cons, IH. specialize (Hf x).
  destruct (decide (R (f x))), (decide (P x)); try tauto; done.
Qed.
End Filters.

(** ** Columns *)

(** A VARCHAR(3) column: a value of three characters is stored, spaces in
    excess are cut off, another character in excess is rejected, and a
    surrogate pair counts as one character. *)
Example varchar_small :
  varchar 3 (str "abc") = Some (str "abc")
  ∧ varchar 3 (str "abc  ") = Some (str "abc")
  ∧ varchar 3 (str "abcd") = None
  ∧ varchar 3 (str "ab" ++ [0xD83D; 0xDD16]%N) = Some (str "ab" ++ [0xD83D; 0xDD16]%N)
  ∧ int4 2147483647 = true ∧ int4 2147483648 = false.
Proof. repeat split; by vm_compute. Qed.

(** An UPDATE moves the rows it changes behind the others. *)
Example sql_update_small :
  sql_update (λ x, x <? 2) (λ x, x + 10) [0; 5; 1; 7] = [5; 7; 10; 11].
Proof. by vm_compute. Qed.

Lemma two_step_ind (P : jsstring → Prop) :
  P [] → (∀ c, P [c]) → (∀ c d s, P s → P (d :: s) → P (c :: d :: s)) → ∀ s, P s.
Proof.
  intros H0 H1 H2.
  assert (∀ s, P s ∧ ∀ c, P (c :: s)) as H; [|intros s; apply H].
  induction s as [|d s [IH1 IH2]]; [by split|].
  split; [apply IH2|]. intros c. by apply H2.
Qed.

Lemma chars_nil s : chars s = [] → s = [].
Proof. destruct s as [|c [|d s]]; simpl; [done|done|]. by destruct (_ && _). Qed.

(** The characters of a string are its code units, in one or two units
    each, and the last unit of the last character is the last unit of the
    string. *)
Lemma concat_chars s : concat (chars s) = s.
Proof.
  induction s as [| |c d s IH1 IH2] using two_step_ind; [done|done|].
  change (chars (c :: d :: s))
    with (if is_high c && is_low d then [c; d] :: chars s else [c] :: chars (d :: s)).
  destruct (_ && _); rewrite concat_cons; [by rewrite IH1|by rewrite IH2].
Qed.

Lemma last_chars s : last (chars s) ≫= last = last s.
Proof.
  induction s as [| |c d s IH1 IH2] using two_step_ind; [done|done|].
  change (chars (c :: d :: s))
    with (if is_high c && is_low d then [c; d] :: chars s else [c] :: chars (d :: s)).
  destruct (_ && _).
  - rewrite last_cons. destruct (last (chars s)) as [x|] eqn:E.
    + simpl in *. rewrite IH1. destruct s as [|e s]; [discriminate E|].
      reflexivity.
    + apply last_None, chars_nil in E as ->. done.
  - rewrite last_cons. destruct (last (chars (d :: s))) as [x|] eqn:E.
    + simpl in *. by rewrite IH2.
    + by apply last_None, chars_nil in E.
Qed.

Lemma varchar_fits n s : fits n s → varchar n s = Some s.
Proof. unfold fits, varchar. intros H. by rewrite decide_True. Qed.

(** A value that does not end with white space is stored as it is or
    rejected: nothing is cut off. *)
Lemma varchar_clean n s s' : ends_clean s → varchar n s = Some s' → s' = s ∧ fits n s.
Proof.
  unfold varchar, fits. intros Hs.
  destruct (decide _) as [|Hlong]; [by intros [= <-]|].
  destruct (forallb _ _) eqn:E; [|done]. exfalso.
  apply Is_true_true_2, forallb_True in E.
  pose proof (last_chars s) as Hl.
  destruct (last (chars s)) as [c|] eqn:El.
  - assert (c ∈ drop n (chars s)) as Hc.
    { rewrite last_lookup in El. apply list_elem_of_lookup.
      exists (pred (length (chars s)) - n)%nat. rewrite lookup_drop, <- El.
      f_equal. lia. }
    rewrite Forall_forall in E. apply E, bool_decide_unpack in Hc. subst c.
    unfold ends_clean in Hs. rewrite <- Hl in Hs. simpl in Hs. discriminate Hs.
  - apply last_None in El. rewrite El in Hlong. simpl in Hlong. lia.
Qed.

Lemma bookmark_columns_inr title c o t' c' :
  ends_clean c → bookmark_columns title (or_null c) o = inr (t', c') →
  c' = or_null c ∧ varchar 500 title = Some t' ∧ int4 o.
Proof.
  unfold bookmark_columns. intros Hc.
  destruct (int4 o); [|done].
  destruct (varchar 500 title) as [t|]; [|done].
  destruct c as [|x c]; simpl; [by intros [= <- <-]|].
  destruct (varchar 255 (x :: c)) as [k|] eqn:E; [|done].
  apply varchar_clean in E as [-> _]; [|done]. by intros [= <- <-].
Qed.

Lemma bookmark_columns_fits title c o :
  fits 500 title → fits 255 c → int4 o →
  bookmark_columns title (or_null c) o = inr (title, or_null c).
Proof.
  unfold bookmark_columns. intros Ht Hc Ho%Is_true_true_1.
  rewrite Ho, (varchar_fits _ _ Ht).
  destruct c as [|x c]; simpl; [done|]. by rewrite (varchar_fits _ _ Hc).
Qed.


(** ** UPDATE *)

Section Update.
Context {A : Type} (P : A → bool) (f : A → A).

(** An UPDATE changes the selected rows and moves nothing else than them. *)
Lemma sql_update_perm (rows : list A) :
  sql_update P f rows ≡ₚ (λ r, if P r then f r else r) <$> rows.
Proof.
  unfold sql_update. induction rows as [|r rows IH]; [done|].
  rewrite !filter_cons, fmap_cons. destruct (P r) eqn:E.
  - rewrite decide_False by (intros H; apply H; done).
    rewrite decide_True by done. rewrite fmap_cons, <- Permutation_middle.
    by f_equiv.
  - rewrite decide_True by (intros H; done).
    rewrite decide_False by (intros H; done). simpl. by f_equiv.
Qed.

Lemma sql_update_none (rows : list A) :
  (∀ r, r ∈ rows → ¬ P r) → sql_update P f rows = rows.
Proof.
  intros H. unfold sql_update.
  rewrite (filter_all (λ r, ¬ P r)) by done.
  assert (filter (λ r, P r) rows = []) as ->; [|by rewrite app_nil_r].
  induction rows as [|r rows IH]; [done|].
  rewrite filter_cons_False by (apply H; by left).
  apply IH. intros x Hx. apply H. by right.
Qed.

(** The rows that an UPDATE does not select stay in their sequence. *)
Lemma sql_update_others (Q : A → Prop) `{!∀ r, Decision (Q r)} (rows : list A) :
  (∀ r, P r → ¬ Q r) → (∀ r, P r → ¬ Q (f r)) →
  filter Q (sql_update P f rows) = filter Q rows.
Proof.
  intros HP Hf. unfold sql_update. rewrite filter_app.
  assert (filter Q (f <$> filter (λ r, P r) rows) = []) as ->.
  { induction rows as [|r rows IH]; [done|]. rewrite filter_cons.
    destruct (decide (P r)); [|done].
    rewrite fmap_cons, filter_cons_False by auto. done. }
  rewrite app_nil_r, list_filter_filter.
  apply filter_ext_in. intros r _. split; [tauto|].
  intros Hq. split; [done|]. intros Hp. by apply (HP r).
Qed.

(** The rows that an UPDATE selects, read again. *)
Lemma sql_update_selected (Q : A → Prop) `{!∀ r, Decision (Q r)} (rows : list A) :
  (∀ r, Q r ↔ P r) → (∀ r, Q (f r) ↔ Q r) →
  filter Q (sql_update P f rows) = f <$> filter Q rows.
Proof.
  intros HQ Hf. unfold sql_update. rewrite filter_app.
  assert (filter Q (filter (λ r, ¬ P r) rows) = []) as ->.
  { rewrite list_filter_filter. induction rows as [|r rows IH]; [done|].
    rewrite filter_cons_False; [done|]. intros [Hq Hp]. by apply Hp, HQ. }
  rewrite (filter_fmap_comm Q Q) by done. simpl. f_equal.
  rewrite list_filter_filter. apply filter_ext_in. intros r _. rewrite HQ. tauto.
Qed.
End Update.

Lemma update_by_id_perm id (g : Row → Row) (rows : list Row) :
  sql_update (λ r, bool_decide (r_id r = id)) g rows
  ≡ₚ (λ r, if decide (r_id r = id) then g r else r) <$> rows.
Proof.
  rewrite sql_update_perm. apply eq_subrelation; [apply _|].
  apply list_fmap_ext. intros _ r _. simpl.
  destruct (decide (r_id r = id)).
  - by rewrite bool_decide_eq_true_2.
  - by rewrite bool_decide_eq_false_2.
Qed.

Lemma shifted_perm cat o (rows : list Row) : shifted cat o rows ≡ₚ shift_row cat o <$> rows.
Proof. apply sql_update_perm. Qed.

#[global] Instance sql_max_proper : Proper ((≡ₚ) ==> (=)) sql_max.
Proof.
  intros l k Hp. induction Hp as [|x l k Hp IH|x y l|l k m H1 IH1 H2 IH2]; simpl.
  - done.
  - by rewrite IH.
  - f_equal. destruct (sql_max l); lia.
  - congruence.
Qed.

#[global] Instance in_category_proper cat : Proper ((≡ₚ) ==> (≡ₚ)) (in_category cat).
Proof. intros l k Hp. unfold in_category. by rewrite Hp. Qed.

(** ** Reordering (C5) *)

Lemma with_bookmarks_self st : with_bookmarks st (bookmarks st) = st.
Proof. by destruct st. Qed.

Lemma assign_id i ids r : r_id (assign i ids r) = r_id r.
Proof. unfold assign. by destruct (assigned i ids (r_id r)). Qed.

Lemma for_each_update_order i ids st :
  for_each update_order i ids st
  = (Returned (), with_bookmarks st (reordered i ids (bookmarks st))).
Proof.
  revert i st. induction ids as [|x ids IH]; intros i st; simpl.
  - unfold mret, db_ret. by rewrite with_bookmarks_self.
  - unfold mbind, db_bind, update_order. by rewrite IH.
Qed.

(** A run of [update_order] leaves every row with the order that [assign]
    gives it, and leaves the rows of the other ids in their sequence. *)
Lemma reordered_perm i ids (rows : list Row) :
  reordered i ids rows ≡ₚ assign i ids <$> rows.
Proof.
  revert i rows. induction ids as [|x ids IH]; intros i rows; simpl.
  - unfold assign. simpl. by rewrite list_fmap_id.
  - rewrite IH, update_by_id_perm, <- list_fmap_compose.
    apply eq_subrelation; [apply _|]. apply list_fmap_ext.
    intros _ r _. unfold assign. simpl.
    destruct (decide (r_id r = x)) as [<-|Hne]; simpl.
    + rewrite decide_True by done.
      by destruct (assigned (i + 1) ids (r_id r)).
    + rewrite decide_False by done.
      by destruct (assigned (i + 1) ids (r_id r)).
Qed.

Lemma reordered_others i ids (seen : list jsstring) (rows : list Row) :
  (∀ id, id ∈ ids → id ∈ seen) →
  filter (λ r, r_id r ∉ seen) (reordered i ids rows) = filter (λ r, r_id r ∉ seen) rows.
Proof.
  revert i rows. induction ids as [|x ids IH]; intros i rows Hsub; simpl; [done|].
  rewrite IH by (intros id Hid; apply Hsub; by right).
  apply (sql_update_others _ _ (λ r, r_id r ∉ seen)).
  - intros r Hx%bool_decide_unpack Hr. apply Hr, Hsub. rewrite Hx. by left.
  - intros r Hx%bool_decide_unpack Hr. apply Hr, Hsub. simpl. rewrite Hx. by left.
Qed.

Lemma assigned_None i ids id : id ∉ ids → assigned i ids id = None.
Proof.
  revert i. induction ids as [|x ids IH]; intros i; simpl; [done|].
  rewrite not_elem_of_cons. intros [Hne H].
  rewrite IH by done. by rewrite decide_False.
Qed.

Lemma assigned_last i ids id (k : nat) :
  ids !! k = Some id → id ∉ drop (S k) ids →
  assigned i ids id = Some (i + Z.of_nat k).
Proof.
  revert i k. induction ids as [|x ids IH]; intros i k; [done|].
  destruct k as [|k]; simpl.
  - intros [= ->] H. rewrite drop_0 in H. rewrite assigned_None by done.
    rewrite decide_True by done. f_equal. lia.
  - intros Hk H. rewrite (IH _ k) by done. f_equal. lia.
Qed.

Lemma missing_ids_filter order (l : list jsstring) :
  filter (λ id, ¬ includes order id) l = filter (λ id, id ∉ order) l.
Proof.
  apply list_filter_iff. intros id. unfold includes.
  by rewrite bool_decide_spec.
Qed.

Lemma NoDup_lookup_last {A} (l : list A) k x :
  NoDup l → l !! k = Some x → x ∉ drop (S k) l.
Proof.
  intros Hnd Hk Hin. apply list_elem_of_lookup in Hin as [j Hj].
  rewrite lookup_drop in Hj.
  pose proof (NoDup_lookup _ _ _ _ Hnd Hk Hj). lia.
Qed.

Lemma reorderBookmarks_state order st :
  reorderBookmarks order st
  = listBookmarks
      (with_bookmarks st
         (reordered (Z.of_nat (length order)) (missing_ids order st)
            (reordered 0 order (bookmarks st)))).
Proof.
  unfold reorderBookmarks, mbind, db_bind.
  rewrite for_each_update_order. unfold select_ids.
  rewrite for_each_update_order. simpl.
  rewrite missing_ids_filter.
  rewrite (filter_fmap_comm (λ r, r_id r ∉ order) (λ id, id ∉ order)) by done.
  rewrite reordered_others by done.
  by rewrite <- (filter_fmap_comm (λ r, r_id r ∉ order) (λ id, id ∉ order)).
Qed.

Lemma reorderBookmarks_rows order st :
  bookmarks (state_of (reorderBookmarks order st))
  ≡ₚ (assign (Z.of_nat (length order)) (missing_ids order st) ∘ assign 0 order)
     <$> bookmarks st.
Proof.
  rewrite reorderBookmarks_state, listBookmarks_returns. simpl.
  by rewrite !reordered_perm, <- list_fmap_compose.
Qed.

Lemma reorderBookmarks_returns order st :
  reorderBookmarks order st
  = (Returned (listed (state_of (reorderBookmarks order st))),
     state_of (reorderBookmarks order st)).
Proof. by rewrite reorderBookmarks_state, listBookmarks_returns. Qed.

Lemma reorderBookmarks_listed_order order st r (p : nat) :
  r ∈ bookmarks (state_of (reorderBookmarks order st)) →
  order !! p = Some (r_id r) → r_id r ∉ drop (S p) order → r_order r = Z.of_nat p.
Proof.
  intros Hin Hp Hlast. rewrite reorderBookmarks_rows in Hin.
  apply list_elem_of_fmap in Hin as (r0 & -> & _). unfold compose in *.
  rewrite !assign_id in Hp, Hlast. unfold assign at 1. rewrite assign_id.
  rewrite assigned_None.
  - unfold assign. rewrite (assigned_last 0 order (r_id r0) p); [simpl; lia|done|done].
  - unfold missing_ids. rewrite list_elem_of_filter.
    intros [Hn _]. apply Hn. by eapply list_elem_of_lookup_2.
Qed.

Lemma reorderBookmarks_missing_order order st r (k : nat) :
  NoDup (r_id <$> bookmarks st) →
  r ∈ bookmarks (state_of (reorderBookmarks order st)) →
  missing_ids order st !! k = Some (r_id r) →
  r_order r = Z.of_nat (length order) + Z.of_nat k.
Proof.
  intros Hnd Hin Hk. rewrite reorderBookmarks_rows in Hin.
  apply list_elem_of_fmap in Hin as (r0 & -> & _). unfold compose in *.
  rewrite !assign_id in Hk. unfold assign at 1. rewrite assign_id.
  rewrite (assigned_last _ _ (r_id r0) k); [done|done|].
  apply NoDup_lookup_last; [|done]. unfold missing_ids. by apply NoDup_filter.
Qed.

(** C5, as amended: [reorderBookmarks] returns the new listing and changes
    nothing but orders; a bookmark whose id is in the sequence receives the
    index at which the id stands there (the last such index, should the id
    be repeated); the bookmarks whose ids the sequence leaves out receive
    the values that follow the length of the sequence, in the order in
    which a scan of the table returns them, which need not be the order
    they had among themselves; on bookmarks [a, b] the sequence [b, a]
    leaves a with order 1 and b with order 0. *)
Theorem reorderBookmarks_assigns_positions (order : list jsstring) (st : Store) :
  NoDup (r_id <$> bookmarks st) →
  reorderBookmarks order st
  = (Returned (listed (state_of (reorderBookmarks order st))),
     state_of (reorderBookmarks order st))
  ∧ (∃ rows', bookmarks (state_of (reorderBookmarks order st)) ≡ₚ rows'
              ∧ Forall2 same_but_order (bookmarks st) rows')
  ∧ (∀ (k : nat) id r, order !! k = Some id → id ∉ drop (S k) order →
       r ∈ bookmarks (state_of (reorderBookmarks order st)) → r_id r = id →
       r_order r = Z.of_nat k)
  ∧ (∀ (k : nat) id r, missing_ids order st !! k = Some id →
       r ∈ bookmarks (state_of (reorderBookmarks order st)) → r_id r = id →
       r_order r = Z.of_nat (length order) + Z.of_nat k)
  ∧ (∀ a b, bookmarks st = [a; b] → order = [r_id b; r_id a] →
       bookmarks (state_of (reorderBookmarks order st))
       ≡ₚ [set_r_order 1 a; set_r_order 0 b]).
Proof.
  intros Hnd. split; [apply reorderBookmarks_returns|].
  set (len := Z.of_nat (length order)).
  split; [|split; [|split]].
  - eexists. split; [apply reorderBookmarks_rows|].
    apply Forall2_fmap_r, Forall_Forall2_diag, Forall_forall.
    intros r _. unfold same_but_order, compose, assign.
    destruct (assigned 0 order (r_id r)); simpl;
      destruct (assigned _ _ _); by destruct r.
  - intros k id r Hk Hlast Hin <-.
    by apply (reorderBookmarks_listed_order order st).
  - intros k id r Hk Hin <-.
    by apply (reorderBookmarks_missing_order order st).
  - intros a b Hst ->. rewrite reorderBookmarks_rows. unfold missing_ids.
    rewrite Hst in *. rewrite !fmap_cons, fmap_nil in *.
    apply NoDup_cons in Hnd as [Hne _].
    rewrite list_elem_of_singleton in Hne.
    assert (filter (λ id, id ∉ [r_id b; r_id a]) [r_id a; r_id b] = []) as ->.
    { rewrite filter_cons_False by (intros H; apply H; set_solver).
      rewrite filter_cons_False by (intros H; apply H; set_solver). done. }
    unfold assign. simpl.
    rewrite !(decide_True (P := r_id a = r_id a)) by done.
    rewrite !(decide_True (P := r_id b = r_id b)) by done.
    rewrite (decide_False (P := r_id a = r_id b)) by done.
    done.
Qed.

Lemma reorderBookmarks_assigns_positions_witness :
  NoDup (r_id <$> bookmarks pair_store)
  ∧ bookmarks (state_of (reorderBookmarks [str "b"; str "a"] pair_store))
    ≡ₚ [example_row "a" (Some (str "work")) true 1;
        example_row "b" (Some (str "work")) true 0].
Proof.
  assert (NoDup (r_id <$> bookmarks pair_store)) as Hnd.
  { apply (bool_decide_unpack _). by vm_compute. }
  split; [exact Hnd|].
  destruct (reorderBookmarks_assigns_positions [str "b"; str "a"] pair_store Hnd)
    as (_ & _ & _ & _ & Hswap).
  apply (Hswap (example_row "a" (Some (str "work")) true 0)
               (example_row "b" (Some (str "work")) true 1));
    reflexivity.
Defined.

(** C5, as stated, fails: a and b are created in this order in category
    'work' and the title of a is then changed, so that a has order 0 and b
    order 1 and the listing shows a before b, while a scan of the table
    returns b first; [reorderBookmarks([])], which mentions neither id,
    gives b order 0 and a order 1: the two bookmarks have changed places. *)
Lemma reorderBookmarks_flips_unlisted :
  run [Create (str "a") (new_bookmark (Val (str "work")));
       Create (str "b") (new_bookmark (Val (str "work")));
       Update (str "a") retitle_patch] empty_store
  = retitled_store
  ∧ (λ b, (bk_id b, bk_order b)) <$> listed retitled_store
    = [(str "a", Some 0); (str "b", Some 1)]
  ∧ missing_ids [] retitled_store = [str "b"; str "a"]
  ∧ (λ b, (bk_id b, bk_order b)) <$> listed (state_of (reorderBookmarks [] retitled_store))
    = [(str "b", Some 0); (str "a", Some 1)].
Proof. repeat split; by vm_compute. Qed.

(** ** Contiguous orders *)

Lemma contiguous_iff (l : list Z) :
  contiguous l ↔ NoDup l ∧ ∀ x, x ∈ l → 0 ≤ x < Z.of_nat (length l).
Proof.
  unfold contiguous. split.
  - intros H. split.
    + rewrite H. apply NoDup_seqZ.
    + intros x Hx. rewrite H in Hx. apply elem_of_seqZ in Hx. lia.
  - intros [Hnd Hr]. apply submseteq_length_Permutation.
    + apply NoDup_submseteq; [done|]. intros x Hx.
      apply elem_of_seqZ. specialize (Hr x Hx). lia.
    + rewrite length_seqZ. lia.
Qed.

#[global] Instance contiguous_proper : Proper ((≡ₚ) ==> iff) contiguous.
Proof.
  assert (∀ l k, l ≡ₚ k → contiguous l → contiguous k) as H.
  { unfold contiguous. intros l k Hp Hl. by rewrite <- Hp. }
  intros l k Hp. split; apply H; done.
Qed.

Lemma sql_max_None l : sql_max l = None → l = [].
Proof. by destruct l. Qed.

Lemma sql_max_Some l m :
  sql_max l = Some m → m ∈ l ∧ ∀ x, x ∈ l → x ≤ m.
Proof.
  revert m. induction l as [|y l IH]; intros m; simpl; [done|].
  destruct (sql_max l) as [k|] eqn:E.
  - intros [= <-]. destruct (IH k eq_refl) as [Hk Hle]. split.
    + destruct (Z.max_spec y k) as [[_ ->]|[_ ->]]; [by right|by left].
    + intros x [->|Hx]%elem_of_cons; [lia|]. specialize (Hle x Hx). lia.
  - intros [= <-]. apply sql_max_None in E as ->. split; [by left|].
    intros x [->|Hx]%elem_of_cons; [lia|]. by apply elem_of_nil in Hx.
Qed.

(** On contiguous orders the next order is their number. *)
Lemma contiguous_max l :
  contiguous l → default (-1) (sql_max l) + 1 = Z.of_nat (length l).
Proof.
  intros Hc. destruct (sql_max l) as [m|] eqn:E; simpl.
  - apply sql_max_Some in E as [Hm Hle].
    pose proof Hc as [_ Hr]%contiguous_iff. specialize (Hr m Hm).
    assert (Z.of_nat (length l) - 1 ∈ l) as Hin.
    { assert (Z.of_nat (length l) - 1 ∈ seqZ 0 (Z.of_nat (length l))) as H.
      { apply elem_of_seqZ. destruct l; [by apply elem_of_nil in Hm|].
        simpl. lia. }
      revert H. unfold contiguous in Hc. by rewrite <- Hc. }
    specialize (Hle _ Hin). lia.
  - apply sql_max_None in E as ->. done.
Qed.

Lemma contiguous_snoc l :
  contiguous l → contiguous (l ++ [Z.of_nat (length l)]).
Proof.
  rewrite !contiguous_iff. intros [Hnd Hr]. split.
  - apply NoDup_app. split; [done|]. split; [|apply NoDup_singleton].
    intros x Hx Hx'. apply list_elem_of_singleton in Hx'.
    specialize (Hr x Hx). lia.
  - intros x [Hx|Hx]%elem_of_app; rewrite length_app; simpl.
    + specialize (Hr x Hx). lia.
    + apply list_elem_of_singleton in Hx. lia.
Qed.

Lemma contiguous_close_gap o l :
  contiguous (o :: l) → contiguous (close_gap o <$> l).
Proof.
  rewrite !contiguous_iff. intros [[Ho Hnd]%NoDup_cons Hr].
  assert (∀ x, x ∈ l → x ≠ o ∧ 0 ≤ x ≤ Z.of_nat (length l)) as Hl.
  { intros x Hx. split; [by intros ->|].
    specialize (Hr x (list_elem_of_further _ _ _ Hx)). simpl in Hr. lia. }
  assert (0 ≤ o ≤ Z.of_nat (length l)) as Hro.
  { specialize (Hr o (list_elem_of_here _ _)). simpl in Hr. lia. }
  split.
  - apply NoDup_fmap_2_strong; [|done]. intros x y Hx Hy.
    apply Hl in Hx, Hy. unfold close_gap.
    destruct (o <? x) eqn:Ex, (o <? y) eqn:Ey; lia.
  - intros y (x & -> & Hx)%list_elem_of_fmap. rewrite length_fmap.
    apply Hl in Hx. unfold close_gap. destruct (o <? x) eqn:Ex; lia.
Qed.

(** ** Rows and categories *)

Lemma stored_normalised_written x r :
  r_category r = or_null (normalizeCategory x) →
  category_of r = normalizeCategory x ∧ stored_normalised r.
Proof.
  intros H. assert (category_of r = normalizeCategory x) as Hc.
  { unfold category_of. rewrite H. apply normalizeCategory_stored. }
  split; [done|]. unfold stored_normalised. by rewrite Hc.
Qed.

Lemma sql_eq_stored r c :
  stored_normalised r →
  sql_eq (r_category r) (or_null c) ↔ category_of r = c ∧ c ≠ [].
Proof.
  unfold stored_normalised. intros ->.
  destruct (category_of r) as [|a k], c as [|b c]; simpl;
    rewrite ?bool_decide_spec; split; try done; try (by intros [? ?]).
Qed.

Lemma sql_eq_null x : sql_eq x None = false.
Proof. by destruct x. Qed.

Lemma in_category_named c (rows : list Row) :
  Forall stored_normalised rows → c ≠ [] →
  in_category (or_null c) rows = filter (λ r, category_of r = c) rows.
Proof.
  intros Hs Hc. apply filter_ext_in. intros r Hr.
  rewrite Forall_forall in Hs. rewrite sql_eq_stored by auto. tauto.
Qed.

Lemma shift_row_id cat o r : r_id (shift_row cat o r) = r_id r.
Proof. unfold shift_row. by destruct (_ && _). Qed.

Lemma shift_row_category cat o r : r_category (shift_row cat o r) = r_category r.
Proof. unfold shift_row. by destruct (_ && _). Qed.

Lemma shift_row_category_of cat o r : category_of (shift_row cat o r) = category_of r.
Proof. unfold category_of. by rewrite shift_row_category. Qed.

Lemma shift_row_order c o r :
  stored_normalised r →
  r_order (shift_row (or_null c) o r)
  = if decide (category_of r = c ∧ c ≠ []) then close_gap o (r_order r) else r_order r.
Proof.
  intros Hs. unfold shift_row, close_gap.
  pose proof (sql_eq_stored r c Hs) as H.
  destruct (sql_eq (r_category r) (or_null c)); simpl.
  - rewrite decide_True by (by apply H). by destruct (o <? r_order r).
  - rewrite decide_False; [done|]. intros ?%H. done.
Qed.

Lemma shift_ids cat o (rows : list Row) : r_id <$> (shift_row cat o <$> rows) = r_id <$> rows.
Proof.
  rewrite <- list_fmap_compose. apply list_fmap_ext.
  intros _ r _. apply shift_row_id.
Qed.

Lemma table_ok_shift cat o (rows : list Row) : table_ok rows → table_ok (shift_row cat o <$> rows).
Proof.
  intros [Hnd Hs]. split; [by rewrite shift_ids|].
  apply Forall_fmap. eapply Forall_impl; [exact Hs|].
  intros r Hr. unfold stored_normalised, compose in *.
  by rewrite shift_row_category, shift_row_category_of.
Qed.

Lemma table_orders_shift c cd o (rows : list Row) :
  Forall stored_normalised rows → c ≠ [] →
  table_orders c (shift_row (or_null cd) o <$> rows)
  = (if decide (c = cd) then close_gap o else id) <$> table_orders c rows.
Proof.
  intros Hs Hc. unfold table_orders.
  rewrite (filter_fmap_comm (λ r, category_of r = c))
    by (intros r; by rewrite shift_row_category_of).
  rewrite <- !list_fmap_compose. apply list_fmap_ext.
  intros _ r Hr%list_elem_of_lookup_2. apply list_elem_of_filter in Hr as [Hr Hin].
  rewrite Forall_forall in Hs. simpl. rewrite shift_row_order by auto.
  destruct (decide (c = cd)) as [<-|Hne].
  - by rewrite decide_True.
  - rewrite decide_False; [done|]. intros [? _]. congruence.
Qed.

Lemma table_ok_perm rows rows' : rows ≡ₚ rows' → table_ok rows → table_ok rows'.
Proof. intros Hp [Hnd Hs]. split; by rewrite <- Hp. Qed.

Lemma table_good_perm rows rows' : rows ≡ₚ rows' → table_good rows → table_good rows'.
Proof.
  intros Hp [Hok Hc]. split; [by eapply table_ok_perm|].
  intros c Hne. unfold table_orders. rewrite <- Hp. by apply Hc.
Qed.

#[global] Instance table_ok_proper : Proper ((≡ₚ) ==> iff) table_ok.
Proof. intros l k Hp. split; apply table_ok_perm; done. Qed.

#[global] Instance table_good_proper : Proper ((≡ₚ) ==> iff) table_good.
Proof. intros l k Hp. split; apply table_good_perm; done. Qed.

Lemma same_id_same_row (rows : list Row) r r' :
  NoDup (r_id <$> rows) → r ∈ rows → r' ∈ rows → r_id r = r_id r' → r = r'.
Proof.
  induction rows as [|x rows IH]; [by intros _ ?%elem_of_nil|].
  rewrite fmap_cons, NoDup_cons, !elem_of_cons.
  intros [Hx Hnd] [->|Hr] [->|Hr'] Hid; [done| | |by apply IH].
  - exfalso. apply Hx. rewrite Hid. by apply list_elem_of_fmap_2.
  - exfalso. apply Hx. rewrite <- Hid. by apply list_elem_of_fmap_2.
Qed.

Lemma select_by_id_found (rows : list Row) id cur rest :
  filter (λ r, r_id r = id) rows = cur :: rest → cur ∈ rows ∧ r_id cur = id.
Proof.
  intros H. assert (cur ∈ filter (λ r, r_id r = id) rows) as Hin
    by (rewrite H; by left).
  apply list_elem_of_filter in Hin. tauto.
Qed.

(** With unique ids, an id selects one row, and removing the rows of an id
    removes one row. *)
Lemma select_unique (rows : list Row) cur :
  NoDup (r_id <$> rows) → cur ∈ rows →
  filter (λ r, r_id r = r_id cur) rows = [cur].
Proof.
  induction rows as [|x rows IH]; intros Hnd Hin; [by apply elem_of_nil in Hin|].
  rewrite fmap_cons, NoDup_cons in Hnd. destruct Hnd as [Hx Hnd].
  apply elem_of_cons in Hin as [->|Hin].
  - rewrite filter_cons_True by done. f_equal. by apply select_absent.
  - rewrite filter_cons_False; [by apply IH|].
    intros Hid. apply Hx. rewrite Hid. by apply list_elem_of_fmap_2.
Qed.

Lemma remove_row_perm (rows : list Row) cur :
  NoDup (r_id <$> rows) → cur ∈ rows →
  rows ≡ₚ cur :: filter (λ r, r_id r ≠ r_id cur) rows.
Proof.
  intros Hnd Hin.
  rewrite <- (filter_app_complement (λ r, r_id r = r_id cur) rows) at 1.
  by rewrite select_unique.
Qed.

(** With unique ids, the UPDATE of a row by id replaces one row. *)
Lemma replace_row_perm (rows : list Row) cur id (f : Row → Row) :
  NoDup (r_id <$> rows) → cur ∈ rows → r_id cur = id →
  (λ r, if decide (r_id r = id) then f r else r) <$> rows
  ≡ₚ filter (λ r, r_id r ≠ id) rows ++ [f cur].
Proof.
  intros Hnd Hin <-. rewrite (remove_row_perm rows cur Hnd Hin) at 1.
  rewrite fmap_cons, decide_True by done.
  rewrite <- Permutation_cons_append. f_equiv.
  rewrite <- (list_fmap_id (filter _ rows)) at 2.
  rewrite (list_fmap_ext _ id (filter (λ r, r_id r ≠ r_id cur) rows)); [done|].
  intros _ r Hr%list_elem_of_lookup_2. apply list_elem_of_filter in Hr as [Hr _].
  by rewrite decide_False.
Qed.

(** ** How the statements of the bookmark operations act on a good table *)

(** Appending a row at the order that follows the orders of its category. *)
Lemma table_good_insert (rows : list Row) new :
  table_good rows → r_id new ∉ r_id <$> rows → stored_normalised new →
  r_order new
  = default (-1) (sql_max (r_order <$> in_category (r_category new) rows)) + 1 →
  table_good (rows ++ [new]).
Proof.
  intros [[Hnd Hs] Hc] Hid Hn Ho. split; [split|].
  - rewrite fmap_app. apply NoDup_app. split; [done|].
    split; [|apply NoDup_singleton].
    intros x Hx Hx'%list_elem_of_singleton. by subst.
  - apply Forall_app. split; [done|]. by constructor.
  - intros c Hne. unfold table_orders.
    rewrite filter_app, fmap_app, filter_cons, filter_nil.
    destruct (decide (category_of new = c)) as [E|E]; simpl.
    + assert (r_order new = Z.of_nat (length (table_orders c rows))) as ->.
      { rewrite Ho, Hn, E, in_category_named by done.
        apply contiguous_max. by apply Hc. }
      apply contiguous_snoc. by apply Hc.
    + rewrite app_nil_r. by apply Hc.
Qed.

(** Closing the gap above a row and deleting it. *)
Lemma table_good_remove (rows : list Row) cur :
  table_good rows → cur ∈ rows →
  table_good
    (filter (λ r, r_id r ≠ r_id cur)
       (shift_row (or_null (category_of cur)) (r_order cur) <$> rows)).
Proof.
  intros [[Hnd Hs] Hc] Hin.
  rewrite (filter_fmap_comm (λ r, r_id r ≠ r_id cur))
    by (intros r; by rewrite shift_row_id).
  pose proof (remove_row_perm rows cur Hnd Hin) as Hp.
  set (rest := filter (λ r, r_id r ≠ r_id cur) rows) in *.
  assert (table_ok rest) as Hok.
  { split.
    - rewrite Hp, fmap_cons, NoDup_cons in Hnd. tauto.
    - rewrite Hp, Forall_cons in Hs. tauto. }
  split; [by apply table_ok_shift|].
  intros c Hne. rewrite table_orders_shift by (done || apply Hok).
  specialize (Hc c Hne). unfold table_orders in *.
  rewrite Hp, filter_cons in Hc.
  destruct (decide (c = category_of cur)) as [->|Hcat].
  - rewrite decide_True in Hc by done. rewrite fmap_cons in Hc.
    by apply contiguous_close_gap.
  - rewrite decide_False in Hc by done. by rewrite list_fmap_id.
Qed.

(** The rows of a category do not include a row of another category. *)
Lemma in_category_without (rows : list Row) cur cat :
  NoDup (r_id <$> rows) → cur ∈ rows → sql_eq (r_category cur) cat = false →
  in_category cat (filter (λ r, r_id r ≠ r_id cur) rows) = in_category cat rows.
Proof.
  intros Hnd Hin Hcat. unfold in_category. rewrite list_filter_filter.
  apply filter_ext_in. intros r Hr. split; [tauto|].
  intros H. split; [done|]. intros Hid.
  rewrite (same_id_same_row rows r cur Hnd Hr Hin Hid), Hcat in H. done.
Qed.

(** Rewriting fields other than id, category and order. *)
Lemma table_good_rewrite (rows : list Row) (g : Row → Row) :
  (∀ r, r ∈ rows →
     r_id (g r) = r_id r ∧ r_category (g r) = r_category r ∧ r_order (g r) = r_order r) →
  table_good rows → table_good (g <$> rows).
Proof.
  intros Hg [[Hnd Hs] Hc].
  assert (r_id <$> (g <$> rows) = r_id <$> rows) as Hids.
  { rewrite <- list_fmap_compose. apply list_fmap_ext.
    intros _ r Hr%list_elem_of_lookup_2. by apply Hg. }
  assert (∀ c, table_orders c (g <$> rows) = table_orders c rows) as Hord.
  { intros c. clear Hnd Hs Hc Hids. unfold table_orders.
    induction rows as [|x rows IH]; [done|].
    destruct (Hg x) as (_ & Hcat & Ho); [by left|].
    assert (category_of (g x) = category_of x) as Hcx
      by (unfold category_of; by rewrite Hcat).
    rewrite fmap_cons, !filter_cons, Hcx.
    destruct (decide (category_of x = c)); rewrite ?fmap_cons, ?Ho, IH;
      try done; intros r Hr; apply Hg; by right. }
  split; [split|].
  - by rewrite Hids.
  - apply Forall_fmap, Forall_forall. intros r Hr.
    rewrite Forall_forall in Hs. specialize (Hs r Hr).
    destruct (Hg r Hr) as (_ & Hcat & _).
    unfold stored_normalised, compose, category_of in *. by rewrite Hcat.
  - intros c Hne. rewrite Hord. by apply Hc.
Qed.

(** ** What the bookmark operations do to the store *)

(** [createBookmark] throws and writes nothing, or appends one row, which
    has a new id and the category and order computed for it. *)
Lemma createBookmark_cases uuid data st :
  (∃ e, createBookmark uuid data st = (Thrown e, st))
  ∨ (∃ new b,
       createBookmark uuid data st
       = (Returned b, with_bookmarks st (bookmarks st ++ [new]))
       ∧ (r_id new ∉ r_id <$> bookmarks st)
       ∧ r_category new = r_category (created uuid data (bookmarks st))
       ∧ r_order new = r_order (created uuid data (bookmarks st))).
Proof.
  unfold createBookmark. db_unfold. simpl.
  destruct (bookmark_columns _ _ _) as [e|[t c]] eqn:E; [left; by eexists|].
  apply bookmark_columns_inr in E as (-> & _ & _);
    [|apply normalizeCategory_ends_clean].
  destruct (varchar 255 uuid) as [id|]; [|left; by eexists].
  destruct (bool_decide _) eqn:Eid; [left; by eexists|].
  apply bool_decide_eq_false in Eid. right. by eexists _, _.
Qed.

Lemma createBookmark_thrown uuid data st e :
  outcome_of (createBookmark uuid data st) = Thrown e →
  state_of (createBookmark uuid data st) = st.
Proof.
  destruct (createBookmark_cases uuid data st) as [[e' ->]|(new & b & -> & _)]; done.
Qed.

Lemma insertable_columns uuid data st :
  insertable uuid data st →
  bookmark_columns (nb_title data) (r_category (created uuid data (bookmarks st)))
    (r_order (created uuid data (bookmarks st)))
  = inr (nb_title data, r_category (created uuid data (bookmarks st)))
  ∧ varchar 255 uuid = Some uuid.
Proof.
  intros (Hid & Ht & Hc & Ho). split; [|by apply varchar_fits].
  by apply bookmark_columns_fits.
Qed.

Lemma createBookmark_fresh uuid data st :
  insertable uuid data st → uuid ∉ r_id <$> bookmarks st →
  createBookmark uuid data st
  = (Returned {| bk_id := uuid;
                 bk_title := nb_title data;
                 bk_url := nb_url data;
                 bk_category := of_option (or_null (normalizeCategory (nb_category data)));
                 bk_description := nb_description data;
                 bk_visible := nb_visible data;
                 bk_order := Some (r_order (created uuid data (bookmarks st))) |},
     with_bookmarks st (bookmarks st ++ [created uuid data (bookmarks st)])).
Proof.
  intros [Hcol Hid]%insertable_columns H. unfold createBookmark. db_unfold.
  simpl in *. rewrite Hcol, Hid. by rewrite bool_decide_eq_false_2.
Qed.

Lemma createBookmark_collision uuid data st :
  insertable uuid data st → uuid ∈ r_id <$> bookmarks st →
  createBookmark uuid data st = (Thrown DuplicateKey, st).
Proof.
  intros [Hcol Hid]%insertable_columns H. unfold createBookmark. db_unfold.
  simpl in *. rewrite Hcol, Hid. by rewrite bool_decide_eq_true_2.
Qed.

Lemma deleteBookmark_found id st cur rest :
  filter (λ r, r_id r = id) (bookmarks st) = cur :: rest →
  deleteBookmark id st
  = (Returned (Some (record_of_row cur)),
     with_bookmarks st
       (filter (λ r, r_id r ≠ id)
          (shifted (or_null (category_of cur)) (r_order cur) (bookmarks st)))).
Proof. intros H. unfold deleteBookmark. db_unfold. by rewrite H. Qed.

Lemma deleteBookmark_rows id st cur rest :
  filter (λ r, r_id r = id) (bookmarks st) = cur :: rest →
  bookmarks (state_of (deleteBookmark id st))
  ≡ₚ filter (λ r, r_id r ≠ id)
       (shift_row (or_null (category_of cur)) (r_order cur) <$> bookmarks st).
Proof.
  intros H. rewrite (deleteBookmark_found _ _ _ _ H). simpl.
  by rewrite shifted_perm.
Qed.

Lemma before_write_perm data cur (rows : list Row) :
  ∃ cat o, before_write data cur rows ≡ₚ shift_row cat o <$> rows.
Proof.
  unfold before_write. destruct (decide _).
  - eexists _, _. apply shifted_perm.
  - exists None, 0. rewrite <- (list_fmap_id rows) at 1.
    apply eq_subrelation; [apply _|]. apply list_fmap_ext.
    intros _ r _. unfold shift_row. by destruct (r_category r).
Qed.

Lemma before_write_selected id data cur (rows : list Row) :
  cur ∈ rows → r_id cur = id →
  ∃ r rest, filter (λ r, r_id r = id) (before_write data cur rows) = r :: rest.
Proof.
  intros Hin Hid. destruct (before_write_perm data cur rows) as (cat & o & Hp).
  destruct (filter _ (before_write _ _ _)) as [|r rest] eqn:E; [|by eexists _, _].
  exfalso. assert (shift_row cat o cur ∈ filter (λ r, r_id r = id) (before_write data cur rows)).
  { apply list_elem_of_filter. split.
    - unfold shift_row. by destruct (_ && _).
    - rewrite Hp. by apply list_elem_of_fmap_2. }
  rewrite E in H. by apply elem_of_nil in H.
Qed.

(** [updateBookmark] on a stored id: the database rejects the UPDATE of the
    row, the shift of the old category staying written, or the row is
    written and read back. *)
Lemma updateBookmark_found id data st cur rest :
  filter (λ r, r_id r = id) (bookmarks st) = cur :: rest →
  updateBookmark id data st
  = match bookmark_columns (patched_title data cur) (patched_category data cur)
            (order_to_write data cur (bookmarks st)) with
    | inl e => (Thrown e, with_bookmarks st (before_write data cur (bookmarks st)))
    | inr (title, category) =>
        (Returned
           (Some (record_of_row
                    (patched title category data cur
                       (order_to_write data cur (bookmarks st)) cur))),
         with_bookmarks st
           (sql_update (λ r, bool_decide (r_id r = id))
              (patched title category data cur (order_to_write data cur (bookmarks st)))
              (before_write data cur (bookmarks st))))
    end.
Proof.
  intros H. pose proof (select_by_id_found _ _ _ _ H) as [Hin Hid].
  destruct (before_write_selected id data cur (bookmarks st) Hin Hid) as (r0 & rest0 & Hsel).
  assert (r_id r0 = id) as Hr0.
  { assert (r0 ∈ filter (λ r, r_id r = id) (before_write data cur (bookmarks st))) as Hr
      by (rewrite Hsel; by left).
    by apply list_elem_of_filter in Hr as [Hr _]. }
  destruct (bookmark_columns (patched_title data cur) (patched_category data cur)
              (order_to_write data cur (bookmarks st))) as [e|[t c]] eqn:Hcol;
    unfold order_to_write, before_write, moves, shifted, category_of in Hcol, Hsel |- *;
    unfold updateBookmark; db_unfold; rewrite H;
    destruct (decide (_ ≠ _)); cbn beta iota;
    match goal with
    | |- context [bookmark_columns ?x ?y ?z] =>
        replace (bookmark_columns x y z) with (@inl Error (jsstring * option jsstring) e)
          by (by rewrite <- Hcol)
    | |- context [bookmark_columns ?x ?y ?z] =>
        replace (bookmark_columns x y z) with (@inr Error _ (t, c))
          by (by rewrite <- Hcol)
    end; cbn [bookmarks with_bookmarks]; rewrite ?with_bookmarks_self; try done.
  - rewrite (sql_update_selected _ _ (λ r, r_id r = id));
      [|intros r; by rewrite bool_decide_spec|done].
    rewrite Hsel. simpl. unfold patched, written, record_of_row. simpl.
    by rewrite Hr0, Hid.
  - rewrite (sql_update_selected _ _ (λ r, r_id r = id));
      [|intros r; by rewrite bool_decide_spec|done].
    rewrite Hsel. simpl. unfold patched, written, record_of_row. simpl.
    by rewrite Hr0, Hid.
Qed.

Lemma updateBookmark_rows id data st cur rest title category :
  filter (λ r, r_id r = id) (bookmarks st) = cur :: rest →
  bookmark_columns (patched_title data cur) (patched_category data cur)
    (order_to_write data cur (bookmarks st)) = inr (title, category) →
  bookmarks (state_of (updateBookmark id data st))
  ≡ₚ (λ r, if decide (r_id r = id)
           then patched title category data cur (order_to_write data cur (bookmarks st)) r
           else r) <$> before_write data cur (bookmarks st).
Proof.
  intros H Hcol. rewrite (updateBookmark_found _ _ _ _ _ H), Hcol. simpl.
  apply update_by_id_perm.
Qed.

(** The category that [updateBookmark] writes is a normalised one, and is
    stored as it is. *)
Lemma patched_category_form data cur :
  stored_normalised cur → ∃ x, patched_category data cur = or_null (normalizeCategory x).
Proof.
  unfold patched_category, stored_normalised. intros Hcur.
  destruct (p_category data) as [| |c] eqn:E.
  - exists (of_option (r_category cur)). rewrite Hcur at 1.
    unfold category_of. by destruct (normalizeCategory _).
  - by exists Null.
  - by exists (Val c).
Qed.

Lemma patched_columns data cur o title category :
  stored_normalised cur →
  bookmark_columns (patched_title data cur) (patched_category data cur) o
  = inr (title, category) →
  category = patched_category data cur.
Proof.
  intros [x Hx]%(patched_category_form data) Hcol. rewrite Hx in *.
  by apply bookmark_columns_inr in Hcol as [-> _]; [|apply normalizeCategory_ends_clean].
Qed.



(** The table that [updateBookmark] leaves when the database accepts the
    UPDATE of the row: up to the sequence of the rows, the row of the id is
    the one written and the other rows are at most shifted. *)
Lemma updateBookmark_written id data st cur rest title category :
  filter (λ r, r_id r = id) (bookmarks st) = cur :: rest →
  bookmark_columns (patched_title data cur) (patched_category data cur)
    (order_to_write data cur (bookmarks st)) = inr (title, category) →
  ∃ cat o,
    bookmarks (state_of (updateBookmark id data st))
    ≡ₚ (λ r, if decide (r_id r = id)
             then patched title category data cur
                    (order_to_write data cur (bookmarks st)) cur
             else shift_row cat o r) <$> bookmarks st.
Proof.
  intros E Hcol. pose proof (select_by_id_found _ _ _ _ E) as [Hin Hid].
  destruct (before_write_perm data cur (bookmarks st)) as (cat & o & Hp).
  exists cat, o. rewrite (updateBookmark_rows _ _ _ _ _ _ _ E Hcol), Hp.
  rewrite <- list_fmap_compose. apply eq_subrelation; [apply _|].
  apply list_fmap_ext. intros _ r _. simpl. rewrite shift_row_id.
  destruct (decide (r_id r = id)) as [Hr|]; [|done].
  unfold patched, written. by rewrite shift_row_id, Hr, Hid.
Qed.

(** ** The operations keep a good table good *)

Lemma createBookmark_good uuid data st :
  table_good (bookmarks st) →
  table_good (bookmarks (state_of (createBookmark uuid data st))).
Proof.
  intros Hg.
  destruct (createBookmark_cases uuid data st)
    as [[e ->]|(new & b & -> & Hid & Hcat & Hord)]; [done|].
  simpl. apply table_good_insert; [done|done| |by rewrite Hord, Hcat].
  by apply (stored_normalised_written (nb_category data)).
Qed.

Lemma deleteBookmark_good id st :
  table_good (bookmarks st) →
  table_good (bookmarks (state_of (deleteBookmark id st))).
Proof.
  intros Hg. destruct (filter (λ r, r_id r = id) (bookmarks st)) as [|cur rest] eqn:E.
  - unfold deleteBookmark. db_unfold. by rewrite E.
  - eapply table_good_perm; [symmetry; by eapply deleteBookmark_rows|].
    apply select_by_id_found in E as [Hin <-]. by apply table_good_remove.
Qed.

Lemma patched_category_named data cur :
  p_category data ≠ Undefined →
  patched_category data cur = or_null (normalizeCategory (p_category data)).
Proof. unfold patched_category. by destruct (p_category data). Qed.

(** An update that leaves the bookmark in its category and does not set the
    order, whether the database accepts it or not. *)
Lemma updateBookmark_good_same id data st cur rest :
  filter (λ r, r_id r = id) (bookmarks st) = cur :: rest →
  p_category data ≠ Undefined → p_order data = None →
  normalizeCategory (p_category data) = category_of cur →
  table_good (bookmarks st) →
  table_good (bookmarks (state_of (updateBookmark id data st))).
Proof.
  intros E Hcat Hord Heq Hg.
  pose proof (select_by_id_found _ _ _ _ E) as [Hin Hid].
  pose proof Hg as [[Hnd Hs] _].
  assert (stored_normalised cur) as Hcur by (rewrite Forall_forall in Hs; auto).
  assert (before_write data cur (bookmarks st) = bookmarks st) as Hbw.
  { unfold before_write, moves. by rewrite decide_False by (intros H; by apply H). }
  assert (order_to_write data cur (bookmarks st) = r_order cur) as How.
  { unfold order_to_write, moves.
    rewrite decide_False by (intros H; by apply H). by rewrite Hord. }
  destruct (bookmark_columns (patched_title data cur) (patched_category data cur)
              (order_to_write data cur (bookmarks st))) as [e|[t c]] eqn:Hcol.
  { rewrite (updateBookmark_found _ _ _ _ _ E), Hcol. simpl. by rewrite Hbw. }
  eapply table_good_perm; [symmetry; by eapply updateBookmark_rows|].
  pose proof (patched_columns _ _ _ _ _ Hcur Hcol) as ->.
  rewrite Hbw, How. apply table_good_rewrite; [|done]. intros r Hr.
  destruct (decide (r_id r = id)) as [Hr_id|]; [|done].
  assert (r = cur) as -> by (apply (same_id_same_row (bookmarks st)); congruence).
  simpl. by rewrite patched_category_named, Heq.
Qed.

(** An update that changes the category and that the database accepts. *)
Lemma updateBookmark_good_moved id data st cur rest :
  filter (λ r, r_id r = id) (bookmarks st) = cur :: rest →
  p_category data ≠ Undefined →
  normalizeCategory (p_category data) ≠ category_of cur →
  ¬ throws (updateBookmark id data) st →
  table_good (bookmarks st) →
  table_good (bookmarks (state_of (updateBookmark id data st))).
Proof.
  intros E Hcat Hne Hacc Hg.
  pose proof (select_by_id_found _ _ _ _ E) as [Hin Hid].
  pose proof Hg as [[Hnd Hs] _].
  assert (stored_normalised cur) as Hcur by (rewrite Forall_forall in Hs; auto).
  destruct (bookmark_columns (patched_title data cur) (patched_category data cur)
              (order_to_write data cur (bookmarks st))) as [e|[t c]] eqn:Hcol.
  { exfalso. apply Hacc. exists e.
    by rewrite (updateBookmark_found _ _ _ _ _ E), Hcol. }
  eapply table_good_perm; [symmetry; by eapply updateBookmark_rows|].
  pose proof (patched_columns _ _ _ _ _ Hcur Hcol) as ->.
  unfold order_to_write, before_write, moves. rewrite !decide_True by done.
  set (rows := shift_row (or_null (category_of cur)) (r_order cur) <$> bookmarks st).
  set (cur' := shift_row (or_null (category_of cur)) (r_order cur) cur).
  assert (cur' ∈ rows) as Hin' by (by apply list_elem_of_fmap_2).
  assert (r_id cur' = id) as Hid' by (unfold cur'; by rewrite shift_row_id).
  pose proof (table_ok_shift (or_null (category_of cur)) (r_order cur) _ (proj1 Hg))
    as [Hnd' Hs'].
  fold rows in Hnd', Hs'.
  rewrite !shifted_perm. fold rows.
  eapply table_good_perm.
  { symmetry. by apply (replace_row_perm rows cur'). }
  apply table_good_insert.
  + rewrite <- Hid. by apply table_good_remove.
  + simpl. intros (r & Hr & Hrin)%list_elem_of_fmap.
    apply list_elem_of_filter in Hrin as [Hrne _]. congruence.
  + eapply stored_normalised_written. simpl. by apply patched_category_named.
  + simpl. rewrite patched_category_named by done.
    rewrite shifted_perm. fold rows.
    rewrite <- Hid'. rewrite in_category_without; [done|done|done|].
    assert (stored_normalised cur') as Hcur'
      by (rewrite Forall_forall in Hs'; auto).
    pose proof (sql_eq_stored cur' (normalizeCategory (p_category data)) Hcur') as Hsql.
    destruct (sql_eq _ _); [|done]. exfalso. apply Hne.
    unfold cur' in Hsql. rewrite shift_row_category_of in Hsql.
    symmetry. by apply Hsql.
Qed.

Lemma step_good st op :
  admissible st op → table_good (bookmarks st) → table_good (bookmarks (step st op)).
Proof.
  destruct op as [uuid data|id data|id]; simpl.
  - intros _. apply createBookmark_good.
  - intros [Hcat Hadm] Hg.
    destruct (filter (λ r, r_id r = id) (bookmarks st)) as [|cur rest] eqn:E.
    { unfold updateBookmark. db_unfold. by rewrite E. }
    destruct (decide (normalizeCategory (p_category data) = category_of cur)) as [Heq|Hne].
    + by eapply updateBookmark_good_same.
    + by eapply updateBookmark_good_moved.
  - intros _. apply deleteBookmark_good.
Qed.

Lemma table_good_iff st :
  table_good (bookmarks st) ↔ well_formed st ∧ named_order_invariant st.
Proof. reflexivity. Qed.

(** C1, as amended: from a store with unique ids and normalised stored
    categories in which the orders of every named category are exactly
    0, ..., n-1, a sequence of [createBookmark], [deleteBookmark] and
    [updateBookmark] calls leads to such a store again, provided that every
    patch names the category, that a patch which leaves the bookmark in its
    category does not set the order, and that the database rejects no
    update that changes the category. *)
Theorem named_orders_stay_contiguous (ops : list Op) (st : Store) :
  well_formed st → named_order_invariant st → admissible_run ops st →
  well_formed (run ops st) ∧ named_order_invariant (run ops st).
Proof.
  intros Hwf Hinv Hops. apply table_good_iff.
  assert (table_good (bookmarks st)) as Hg by (by apply table_good_iff).
  clear Hwf Hinv. revert st Hg Hops.
  induction ops as [|op ops IH]; intros st Hg Hops; simpl; [done|].
  destruct Hops as [Hop Hops]. apply IH; [|done]. by apply step_good.
Qed.

Lemma pair_store_orders c :
  orders_of c pair_store = if decide (c = str "work") then [0; 1] else [].
Proof.
  unfold orders_of, table_orders, pair_store. simpl bookmarks.
  assert (∀ id o, category_of (example_row id (Some (str "work")) true o) = str "work")
    as Hcat by (intros; by vm_compute).
  rewrite !filter_cons, filter_nil, !Hcat.
  destruct (decide (c = str "work")) as [->|Hne].
  - by rewrite !decide_True.
  - by rewrite !decide_False.
Qed.

Lemma pair_store_invariant : order_invariant pair_store.
Proof.
  intros c. rewrite pair_store_orders.
  destruct (decide _); unfold contiguous; reflexivity.
Qed.

Lemma pair_store_well_formed : well_formed pair_store.
Proof.
  split.
  - apply (bool_decide_unpack _). by vm_compute.
  - repeat constructor.
Qed.

Lemma example_ops_admissible : admissible_run example_ops pair_store.
Proof.
  vm_compute. repeat split; try discriminate; intros [e He]; discriminate He.
Qed.

Lemma named_orders_stay_contiguous_witness :
  well_formed (run example_ops pair_store)
  ∧ named_order_invariant (run example_ops pair_store).
Proof.
  apply (named_orders_stay_contiguous example_ops pair_store).
  - exact pair_store_well_formed.
  - intros c _. apply pair_store_invariant.
  - exact example_ops_admissible.
Defined.

(** C1, as stated, fails: [pair_store] satisfies the invariant in every
    category, and after [updateBookmark('a', {category: 'work', order: 5})]
    the orders of category 'work' are 1 and 5. *)
Lemma order_patch_breaks_invariant :
  order_invariant pair_store
  ∧ outcome_of (updateBookmark (str "a") order_patch pair_store)
    = Returned (Some (record_of_row (example_row "a" (Some (str "work")) true 5)))
  ∧ orders_of (str "work") (run [Update (str "a") order_patch] pair_store) = [1; 5]
  ∧ ¬ order_invariant (run [Update (str "a") order_patch] pair_store).
Proof.
  split; [exact pair_store_invariant|]. split; [by vm_compute|].
  assert (orders_of (str "work") (run [Update (str "a") order_patch] pair_store) = [1; 5])
    as Ho by (by vm_compute).
  split; [done|]. intros H. specialize (H (str "work")).
  rewrite Ho in H. apply contiguous_iff in H as [_ H].
  specialize (H 5). simpl in H. assert (5 ∈ [1; 5]) as Hin by (right; by left).
  apply H in Hin. lia.
Qed.

(** The last condition of the amended C1 is needed: a category name of 256
    characters is rejected by the column, after the shift of the old
    category has been written, and the orders of 'work' are left as
    0, 0, 1. *)
Lemma rejected_update_leaves_gap :
  order_invariant triple_store
  ∧ outcome_of (updateBookmark (str "a") (category_patch long_name) triple_store)
    = Thrown ValueTooLong
  ∧ (λ r, (r_id r, r_order r))
      <$> bookmarks (state_of (updateBookmark (str "a") (category_patch long_name) triple_store))
    = [(str "a", 0); (str "b", 0); (str "c", 1)]
  ∧ ¬ named_order_invariant
        (state_of (updateBookmark (str "a") (category_patch long_name) triple_store)).
Proof.
  split; [|split; [by vm_compute|split; [by vm_compute|]]].
  - intros c. unfold orders_of, table_orders, triple_store. simpl bookmarks.
    assert (∀ id o, category_of (example_row id (Some (str "work")) true o) = str "work")
      as Hcat by (intros; by vm_compute).
    rewrite !filter_cons, filter_nil, !Hcat.
    destruct (decide (str "work" = c)); unfold contiguous; reflexivity.
  - intros H. specialize (H (str "work")).
    assert (orders_of (str "work")
              (state_of (updateBookmark (str "a") (category_patch long_name) triple_store))
            = [0; 0; 1]) as Ho by (by vm_compute).
    rewrite Ho in H. apply contiguous_iff in H as [H _]; [|done].
    apply NoDup_cons in H as [H _]. apply H. by left.
Qed.

(** ** The uncategorised bookmarks and patches without category (C2, C3, C4) *)

(** C2, at the failing input: the store holds one uncategorised bookmark,
    of order 0 (itself created by [createBookmark] on the empty store);
    creating a second uncategorised bookmark gives it order 0 again,
    where one plus the greatest existing order of its category is 1. *)
Theorem createBookmark_uncategorised_order_zero :
  state_of (createBookmark (str "a") (new_bookmark Undefined) empty_store) = loose_store
  ∧ normalizeCategory (nb_category (new_bookmark Undefined)) = []
  ∧ orders_of [] loose_store = [0]
  ∧ createBookmark (str "b") (new_bookmark Undefined) loose_store
    = (Returned {| bk_id := str "b"; bk_title := str "title";
                   bk_url := str "https://example.org"; bk_category := Null;
                   bk_description := Undefined; bk_visible := Some true;
                   bk_order := Some 0 |},
       with_bookmarks loose_store
         [example_row "a" None true 0; example_row "b" None true 0]).
Proof. repeat split; by vm_compute. Qed.

(** C3, at the failing input: three bookmarks of category 'work' with
    orders 0, 1, 2 (created in this order on the empty store);
    [updateBookmark('b', {title: 'new'})], whose patch has no category,
    sets the order of b to 0 and the order of c to 1. *)
Theorem updateBookmark_without_category_reorders :
  run [Create (str "a") (new_bookmark (Val (str "work")));
       Create (str "b") (new_bookmark (Val (str "work")));
       Create (str "c") (new_bookmark (Val (str "work")))] empty_store
  = triple_store
  ∧ p_category title_patch = Undefined
  ∧ (r_id <$> bookmarks triple_store) = [str "a"; str "b"; str "c"]
  ∧ (r_order <$> bookmarks triple_store) = [0; 1; 2]
  ∧ (λ r, (r_id r, r_order r))
      <$> bookmarks (state_of (updateBookmark (str "b") title_patch triple_store))
    ≡ₚ [(str "a", 0); (str "b", 0); (str "c", 1)]
  ∧ (r_category <$> bookmarks (state_of (updateBookmark (str "b") title_patch triple_store)))
    = [Some (str "work"); Some (str "work"); Some (str "work")].
Proof.
  repeat split; try by vm_compute.
  assert ((λ r, (r_id r, r_order r))
            <$> bookmarks (state_of (updateBookmark (str "b") title_patch triple_store))
          = [(str "a", 0); (str "c", 1); (str "b", 0)]) as -> by (by vm_compute).
  apply perm_skip, perm_swap.
Qed.

(** C4, at the failing input: two uncategorised bookmarks a and b with
    orders 0 and 1 (created on the empty store and put in this order by
    [reorderBookmarks]); [deleteBookmark('a')] removes a and leaves b at
    order 1, so that the orders of the category are not 0, ..., n-1. *)
Theorem deleteBookmark_uncategorised_leaves_gap :
  state_of (reorderBookmarks [str "a"; str "b"]
    (state_of (createBookmark (str "b") (new_bookmark Undefined)
       (state_of (createBookmark (str "a") (new_bookmark Undefined) empty_store)))))
  = loose_pair_store
  ∧ orders_of [] loose_pair_store = [0; 1]
  ∧ deleteBookmark (str "a") loose_pair_store
    = (Returned (Some (record_of_row (example_row "a" None true 0))),
       with_bookmarks loose_pair_store [example_row "b" None true 1])
  ∧ orders_of [] (state_of (deleteBookmark (str "a") loose_pair_store)) = [1]
  ∧ ¬ contiguous (orders_of [] (state_of (deleteBookmark (str "a") loose_pair_store))).
Proof.
  repeat split; try by vm_compute.
  assert (orders_of [] (state_of (deleteBookmark (str "a") loose_pair_store)) = [1])
    as -> by (by vm_compute).
  intros [_ H]%contiguous_iff. specialize (H 1 (list_elem_of_here _ _)).
  simpl in H. lia.
Qed.

(** The defect behind C2, C3 and C4: a comparison with NULL selects no row,
    so the statements that work on "the category" of an uncategorised
    bookmark see an empty category. *)
Lemma in_category_null (rows : list Row) : in_category None rows = [].
Proof.
  unfold in_category. induction rows as [|r rows IH]; [done|].
  rewrite filter_cons_False; [done|]. rewrite sql_eq_null. intros H. exact H.
Qed.

Lemma shifted_null o (rows : list Row) : shifted None o rows = rows.
Proof.
  apply sql_update_none. intros r _. rewrite sql_eq_null. intros H. exact H.
Qed.

(** Every uncategorised bookmark is created with order 0. *)
Lemma createBookmark_uncategorised uuid data st :
  normalizeCategory (nb_category data) = [] →
  fits 255 uuid → fits 500 (nb_title data) →
  uuid ∉ r_id <$> bookmarks st →
  ∃ b, createBookmark uuid data st
       = (Returned b, with_bookmarks st (bookmarks st ++ [created uuid data (bookmarks st)]))
       ∧ bk_order b = Some 0
       ∧ r_order (created uuid data (bookmarks st)) = 0.
Proof.
  intros Hcat Hid Ht Hfresh.
  assert (r_order (created uuid data (bookmarks st)) = 0) as Ho.
  { simpl. rewrite Hcat. simpl. by rewrite in_category_null. }
  assert (insertable uuid data st) as Hins.
  { unfold insertable. rewrite Hcat, Ho. repeat split; try done.
    unfold fits. simpl. lia. }
  rewrite createBookmark_fresh by done.
  eexists. split; [done|]. simpl in *. by rewrite Ho.
Qed.

(** Deleting an uncategorised bookmark changes no other row. *)
Lemma deleteBookmark_uncategorised id st cur rest :
  filter (λ r, r_id r = id) (bookmarks st) = cur :: rest →
  category_of cur = [] →
  bookmarks (state_of (deleteBookmark id st)) = filter (λ r, r_id r ≠ id) (bookmarks st).
Proof.
  intros E Hcat. rewrite (deleteBookmark_found _ _ _ _ E). simpl.
  rewrite Hcat. simpl. by rewrite shifted_null.
Qed.

(** A patch without category on a bookmark of a named category takes the
    branch of a category change, and the bookmark is written with order 0
    whatever the patch says about the order. *)
Lemma updateBookmark_without_category id data st cur rest r :
  filter (λ r, r_id r = id) (bookmarks st) = cur :: rest →
  stored_normalised cur →
  p_category data = Undefined → category_of cur ≠ [] →
  ¬ throws (updateBookmark id data) st →
  r ∈ bookmarks (state_of (updateBookmark id data st)) → r_id r = id →
  r_order r = 0 ∧ r_category r = opt_or_null (r_category cur).
Proof.
  intros E Hcur Hcat Hnamed Hacc Hin Hid.
  destruct (bookmark_columns (patched_title data cur) (patched_category data cur)
              (order_to_write data cur (bookmarks st))) as [e|[t c]] eqn:Hcol.
  { exfalso. apply Hacc. exists e.
    by rewrite (updateBookmark_found _ _ _ _ _ E), Hcol. }
  rewrite (updateBookmark_rows _ _ _ _ _ _ _ E Hcol) in Hin.
  pose proof (patched_columns _ _ _ _ _ Hcur Hcol) as ->.
  apply list_elem_of_fmap in Hin as (r0 & -> & _).
  destruct (decide (r_id r0 = id)) as [_|Hne]; [|by destruct Hne].
  simpl. split.
  - unfold order_to_write, moves.
    rewrite decide_True by (rewrite Hcat; intros Heq; by apply Hnamed).
    rewrite Hcat. simpl. by rewrite in_category_null.
  - unfold patched_category. by rewrite Hcat.
Qed.

(** * Further properties of db.ts and of the endpoint *)

(** ** Normalisation *)

Lemma trimEnd_app_fixed (p t : jsstring) :
  trimEnd t = t → t ≠ [] → trimEnd (p ++ t) = p ++ t.
Proof.
  intros Ht Hne. induction p as [|c p IH]; simpl; [done|].
  rewrite IH. destruct (p ++ t) eqn:E; [|done].
  apply app_eq_nil in E as [_ ->]. done.
Qed.

(** X1: the normalised category never begins or ends with white space, and
    normalising it again changes nothing. *)
Theorem normalizeCategory_clean_idempotent (x : optional jsstring) :
  starts_clean (normalizeCategory x)
  ∧ ends_clean (normalizeCategory x)
  ∧ normalizeCategory (Val (normalizeCategory x)) = normalizeCategory x.
Proof.
  rewrite !normalizeCategory_trim. simpl. split; [|split].
  - apply trimEnd_clean, trimStart_clean.
  - apply trimEnd_ends_clean.
  - apply trim_idemp.
Qed.

(** ** [sanitizeUrl] *)

Lemma has_http_scheme_https (t : jsstring) :
  has_http_scheme (str "https://" ++ t) = true.
Proof.
  unfold has_http_scheme. rewrite fmap_app.
  change (fold_case <$> str "https://") with (str "https://").
  rewrite (startsWith_app (str "https://")). apply orb_true_r.
Qed.

Lemma trim_trimmed_https (url : jsstring) :
  trim (str "https://" ++ trim url) = str "https://" ++ trim url.
Proof.
  unfold trim at 1. rewrite trimStart_id by done.
  destruct (trim url) as [|c t] eqn:E; [done|].
  apply trimEnd_app_fixed; [|done].
  rewrite <- E. unfold trim. apply trimEnd_idemp.
Qed.

Lemma sanitizeUrl_has_scheme (url : jsstring) :
  has_http_scheme (sanitizeUrl url) = true.
Proof.
  unfold sanitizeUrl. destruct (has_http_scheme (trim url)) eqn:E; [done|].
  apply has_http_scheme_https.
Qed.

(** X2: the sanitised url always carries an http or https scheme, and
    sanitising it again changes nothing. *)
Theorem sanitizeUrl_scheme_idempotent (url : jsstring) :
  has_http_scheme (sanitizeUrl url) = true
  ∧ sanitizeUrl (sanitizeUrl url) = sanitizeUrl url.
Proof.
  unfold sanitizeUrl at 1 3 4.
  destruct (has_http_scheme (trim url)) eqn:E.
  - split; [done|]. unfold sanitizeUrl. by rewrite trim_idemp, E.
  - split; [apply has_http_scheme_https|].
    unfold sanitizeUrl. by rewrite trim_trimmed_https, has_http_scheme_https.
Qed.

(** ** Settings *)

Lemma getSettings_returns st : getSettings st = (Returned (read_settings st), st).
Proof. reflexivity. Qed.

Lemma upserted_lookup (data : Settings) (m : gmap jsstring jsstring) (k : jsstring) :
  upserted data m !! k
  = if decide (k = key_siteIcon ∧ is_Some (siteIcon data)) then siteIcon data
    else if decide (k = key_siteTitle ∧ is_Some (siteTitle data)) then siteTitle data
    else if decide (k = key_theme ∧ is_Some (theme data)) then theme data
    else m !! k.
Proof.
  unfold upserted, upsert_field.
  destruct (siteIcon data) as [i|], (siteTitle data) as [s|], (theme data) as [t|];
    rewrite ?lookup_insert; repeat case_decide;
    try done; try (destruct_and?; by subst);
    try (exfalso; destruct_and?; subst; done);
    try (exfalso; match goal with
                  | H : ¬ (_ ∧ _) |- _ => apply H; by split
                  end).
Qed.

Lemma updateSettings_accepted (data : Settings) (st : Store) :
  ¬ some_rejected data →
  updateSettings data st
  = (Returned (read_settings (with_settings st (upserted data (settings st)))),
     with_settings st (upserted data (settings st))).
Proof.
  intros Hok. destruct (updateSettings_cases data st) as [[H _]|[_ ->]]; [done|].
  apply getSettings_returns.
Qed.

(** X3: an accepted patch of the settings is read back: [updateSettings]
    returns what [getSettings] returns afterwards, in which every field
    that the patch provides has the patch's value and every other field the
    value that [getSettings] returned before. *)
Theorem updateSettings_round_trip (data : Settings) (st : Store) :
  ¬ some_rejected data →
  updateSettings data st
  = (Returned (read_settings (state_of (updateSettings data st))),
     state_of (updateSettings data st))
  ∧ theme (read_settings (state_of (updateSettings data st)))
    = theme data ∪ theme (read_settings st)
  ∧ siteTitle (read_settings (state_of (updateSettings data st)))
    = siteTitle data ∪ siteTitle (read_settings st)
  ∧ siteIcon (read_settings (state_of (updateSettings data st)))
    = siteIcon data ∪ siteIcon (read_settings st).
Proof.
  intros Hok. rewrite (updateSettings_accepted data st Hok).
  split; [done|]. unfold read_settings, getSettings, state_of. db_unfold. simpl.
  rewrite !upserted_lookup.
  destruct (theme data), (siteTitle data), (siteIcon data);
    repeat case_decide; simpl; repeat split; try done; settings_keys.
Qed.

Lemma ocean_patch_accepted : ¬ some_rejected ocean_patch.
Proof.
  intros [(v & Hv & Hn & _)|[(v & Hv & _)|(v & Hv & _ & Hne)]].
  - injection Hv as <-. apply Hn. unfold valid_theme, validThemes.
    do 3 right. by left.
  - discriminate Hv.
  - injection Hv as <-. done.
Qed.

Lemma updateSettings_round_trip_witness :
  theme (read_settings (state_of (updateSettings ocean_patch settings_store)))
  = Some (str "ocean")
  ∧ siteTitle (read_settings (state_of (updateSettings ocean_patch settings_store)))
    = Some (str "Links")
  ∧ siteIcon (read_settings (state_of (updateSettings ocean_patch settings_store)))
    = Some [].
Proof.
  destruct (updateSettings_round_trip ocean_patch settings_store ocean_patch_accepted)
    as (_ & Ht & Hs & Hi).
  rewrite Ht, Hs, Hi. repeat split; by vm_compute.
Defined.

(** X4: [updateSettings] changes nothing but the settings of the fields
    that the patch provides: bookmarks, category order and every other key
    of the settings table stay as they are, whether the patch is accepted
    or rejected. *)
Theorem updateSettings_frame (data : Settings) (st : Store) :
  bookmarks (state_of (updateSettings data st)) = bookmarks st
  ∧ category_order (state_of (updateSettings data st)) = category_order st
  ∧ ∀ k, k ∉ patch_keys data →
      settings (state_of (updateSettings data st)) !! k = settings st !! k.
Proof.
  destruct (updateSettings_cases data st) as [(_ & e & ->)|(Hok & _)]; [done|].
  rewrite (updateSettings_accepted data st Hok). simpl.
  split; [done|]. split; [done|]. intros k Hk.
  rewrite upserted_lookup. unfold patch_keys in Hk.
  rewrite !not_elem_of_app in Hk. destruct Hk as (Ht & Hs & Hi).
  rewrite decide_False.
  2:{ intros [-> [v Hv]]. rewrite Hv in Hi. apply Hi. by left. }
  rewrite decide_False.
  2:{ intros [-> [v Hv]]. rewrite Hv in Hs. apply Hs. by left. }
  rewrite decide_False; [done|].
  intros [-> [v Hv]]. rewrite Hv in Ht. apply Ht. by left.
Qed.

Lemma updateSettings_frame_witness :
  settings (state_of (updateSettings ocean_patch settings_store)) !! str "storage_config"
  = settings settings_store !! str "storage_config".
Proof.
  apply (updateSettings_frame ocean_patch settings_store).
  apply (bool_decide_unpack _). by vm_compute.
Defined.

(** X5: applying the same patch of the settings twice leaves the store as
    applying it once. *)
Theorem updateSettings_idempotent (data : Settings) (st : Store) :
  state_of (updateSettings data (state_of (updateSettings data st)))
  = state_of (updateSettings data st).
Proof.
  destruct (updateSettings_cases data st) as [(_ & e & He)|(Hok & _)].
  - rewrite He. simpl. by rewrite He.
  - rewrite !(updateSettings_accepted data _ Hok). simpl.
    unfold with_settings. simpl. f_equal.
    apply map_eq. intros k. rewrite !upserted_lookup.
    repeat case_decide; done.
Qed.

(** ** The category-order table *)

Lemma for_each_upsert i l st :
  Forall (fits 255) l →
  for_each upsert_category_order i l st
  = (Returned (), with_category_order st (upsert_all i l (category_order st))).
Proof.
  intros Hl. revert i st. induction Hl as [|c l Hc Hl IH]; intros i st; simpl.
  - by destruct st.
  - unfold mbind, db_bind. unfold upsert_category_order at 1.
    rewrite (varchar_fits _ _ Hc). by rewrite IH.
Qed.

Lemma reorderBookmarkCategories_state order st :
  Forall (fits 255) order →
  reorderBookmarkCategories order st
  = listBookmarks (with_category_order st (upsert_all 0 order [])).
Proof.
  intros Hl. unfold reorderBookmarkCategories, mbind, db_bind, delete_category_order.
  by rewrite for_each_upsert.
Qed.

(** The upserts write to the category-order table only, also when one of
    them is rejected. *)
Lemma for_each_upsert_frame i l st :
  bookmarks (state_of (for_each upsert_category_order i l st)) = bookmarks st
  ∧ settings (state_of (for_each upsert_category_order i l st)) = settings st.
Proof.
  revert i st. induction l as [|c l IH]; intros i st; simpl; [done|].
  unfold mbind, db_bind. unfold upsert_category_order at 1 3.
  destruct (varchar 255 c) as [j|]; [|done].
  exact (IH _ _).
Qed.

Lemma reorderBookmarkCategories_frame order st :
  bookmarks (state_of (reorderBookmarkCategories order st)) = bookmarks st
  ∧ settings (state_of (reorderBookmarkCategories order st)) = settings st.
Proof.
  unfold reorderBookmarkCategories, mbind, db_bind, delete_category_order.
  pose proof (for_each_upsert_frame 0 order (with_category_order st [])) as [Hb Hs].
  destruct (for_each upsert_category_order 0 order (with_category_order st []))
    as [[[]|e] st'] eqn:E; simpl in *; done.
Qed.

Lemma upsert_all_fresh i l (tbl : list CategoryOrderRow) :
  NoDup l → (∀ c, c ∈ l → c ∉ co_category <$> tbl) →
  upsert_all i l tbl = tbl ++ rows_from i l.
Proof.
  revert i tbl. induction l as [|c l IH]; intros i tbl Hnd Hdis; simpl.
  - by rewrite app_nil_r.
  - apply NoDup_cons in Hnd as [Hc Hnd].
    unfold upsert_one. rewrite bool_decide_eq_false_2 by (apply Hdis; by left).
    rewrite IH; [by rewrite <- app_assoc|done|].
    intros d Hd. rewrite fmap_app, not_elem_of_app. split.
    + apply Hdis. by right.
    + simpl. rewrite list_elem_of_singleton. by intros ->.
Qed.

Lemma rows_from_categories i l : co_category <$> rows_from i l = l.
Proof. revert i. induction l as [|c l IH]; intros i; simpl; [done|]. by rewrite IH. Qed.

Lemma rows_from_orders i l r : r ∈ rows_from i l → i ≤ co_order r.
Proof.
  revert i. induction l as [|c l IH]; intros i; simpl; [by intros ?%elem_of_nil|].
  intros [->|Hr]%elem_of_cons; simpl; [lia|]. apply IH in Hr. lia.
Qed.

Lemma rows_from_sorted i l :
  StronglySorted (λ a b, co_order a - co_order b ≤ 0) (rows_from i l).
Proof.
  revert i. induction l as [|c l IH]; intros i; simpl; constructor; [apply IH|].
  apply Forall_forall. intros r Hr%rows_from_orders. simpl. lia.
Qed.

(** A sequence that is in order is left as it is by the sort. *)
Lemma sort_sorted_id {A} (cmp : A → A → Z) (l : list A) :
  StronglySorted (λ a b, cmp a b ≤ 0) l → sort cmp l = l.
Proof.
  induction 1 as [|x l Hs IH Hx]; simpl; [done|].
  rewrite IH. destruct l as [|y l]; simpl; [done|].
  apply Forall_cons in Hx as [Hxy _].
  by rewrite (proj2 (Z.leb_le _ _) Hxy).
Qed.

Lemma example_names_fit : Forall (fits 255) [str "read"; str "work"].
Proof. repeat constructor; unfold fits; simpl; lia. Qed.

(** X6: [reorderBookmarkCategories] replaces the category order: for a
    sequence without repetition of names that a VARCHAR(255) column holds,
    whatever the table held before, the category order read afterwards is
    the sequence itself, and the new listing is returned; bookmarks and
    settings are not touched, whatever the sequence. *)
Theorem reorderBookmarkCategories_replaces (order : list jsstring) (st : Store) :
  (NoDup order → Forall (fits 255) order →
   reorderBookmarkCategories order st
   = (Returned (listed (state_of (reorderBookmarkCategories order st))),
      state_of (reorderBookmarkCategories order st))
   ∧ category_sequence (state_of (reorderBookmarkCategories order st)) = order)
  ∧ bookmarks (state_of (reorderBookmarkCategories order st)) = bookmarks st
  ∧ settings (state_of (reorderBookmarkCategories order st)) = settings st.
Proof.
  split; [|apply reorderBookmarkCategories_frame].
  intros Hnd Hfit. rewrite reorderBookmarkCategories_state, listBookmarks_returns by done.
  split; [done|]. unfold state_of. simpl.
  unfold category_sequence. simpl.
  rewrite upsert_all_fresh by (done || (intros; apply not_elem_of_nil)).
  simpl. rewrite sort_sorted_id by apply rows_from_sorted.
  apply rows_from_categories.
Qed.

Lemma reorderBookmarkCategories_replaces_witness :
  category_sequence
    (state_of (reorderBookmarkCategories [str "read"; str "work"] ordered_store))
  = [str "read"; str "work"].
Proof.
  destruct (reorderBookmarkCategories_replaces [str "read"; str "work"] ordered_store)
    as [H _].
  apply H.
  - apply (bool_decide_unpack _). by vm_compute.
  - exact example_names_fit.
Defined.

Lemma upsert_one_categories i c (tbl : list CategoryOrderRow) :
  co_category <$> upsert_one i c tbl
  ≡ₚ if bool_decide (c ∈ co_category <$> tbl)
     then co_category <$> tbl
     else (co_category <$> tbl) ++ [c].
Proof.
  unfold upsert_one. destruct (bool_decide _); [|by rewrite fmap_app].
  rewrite sql_update_perm, <- list_fmap_compose.
  apply eq_subrelation; [apply _|]. apply list_fmap_ext. intros _ r _. simpl.
  destruct (bool_decide (co_category r = c)) eqn:E; [|done].
  by apply bool_decide_eq_true in E.
Qed.

Lemma upsert_all_categories i l (tbl : list CategoryOrderRow) :
  NoDup (co_category <$> tbl) →
  NoDup (co_category <$> upsert_all i l tbl)
  ∧ ∀ c, c ∈ co_category <$> upsert_all i l tbl ↔ c ∈ co_category <$> tbl ∨ c ∈ l.
Proof.
  revert i tbl. induction l as [|d l IH]; intros i tbl Hnd; simpl.
  - split; [done|]. intros c. rewrite elem_of_nil. tauto.
  - destruct (IH (i + 1) (upsert_one i d tbl)) as [Hnd' Hin].
    + rewrite upsert_one_categories. destruct (bool_decide _) eqn:E; [done|].
      apply bool_decide_eq_false in E. apply NoDup_app.
      split; [done|]. split; [|apply NoDup_singleton].
      intros x Hx ->%list_elem_of_singleton. done.
    + split; [done|]. intros c. rewrite Hin, upsert_one_categories, elem_of_cons.
      destruct (bool_decide _) eqn:E.
      * apply bool_decide_eq_true in E. split; [tauto|].
        intros [?|[->|?]]; tauto.
      * rewrite elem_of_app, list_elem_of_singleton. tauto.
Qed.

(** X7: after [reorderBookmarkCategories], for any sequence of names that
    a VARCHAR(255) column holds, repeated or not, the category order lists
    no category twice and lists exactly the categories of the sequence. *)
Theorem reorderBookmarkCategories_unique (order : list jsstring) (st : Store) :
  Forall (fits 255) order →
  NoDup (category_sequence (state_of (reorderBookmarkCategories order st)))
  ∧ ∀ c, c ∈ category_sequence (state_of (reorderBookmarkCategories order st))
         ↔ c ∈ order.
Proof.
  intros Hfit. rewrite reorderBookmarkCategories_state, listBookmarks_returns by done.
  unfold state_of, category_sequence. simpl.
  destruct (upsert_all_categories 0 order []) as [Hnd Hin]; [constructor|].
  split; [by rewrite sort_perm|]. intros c. rewrite sort_perm, Hin.
  simpl. rewrite elem_of_nil. tauto.
Qed.

Lemma reorderBookmarkCategories_unique_witness :
  NoDup (category_sequence
           (state_of (reorderBookmarkCategories [str "work"; str "read"; str "work"]
                        ordered_store))).
Proof.
  apply (reorderBookmarkCategories_unique [str "work"; str "read"; str "work"] ordered_store).
  repeat constructor; unfold fits; simpl; lia.
Defined.

(** ** Unique ids and normalised categories are kept by every call *)

Lemma table_ok_filter (P : Row → Prop) `{!∀ r, Decision (P r)} (rows : list Row) :
  table_ok rows → table_ok (filter P rows).
Proof.
  intros [Hnd Hs]. split.
  - apply (sublist_NoDup _ (r_id <$> rows)); [done|].
    apply fmap_sublist, sublist_filter.
  - rewrite Forall_forall in *. intros r [_ Hr]%list_elem_of_filter. auto.
Qed.

Lemma table_ok_map (rows : list Row) (g : Row → Row) :
  (∀ r, r ∈ rows → r_id (g r) = r_id r ∧ stored_normalised (g r)) →
  NoDup (r_id <$> rows) → table_ok (g <$> rows).
Proof.
  intros Hg Hnd. split.
  - rewrite <- list_fmap_compose.
    rewrite (list_fmap_ext (r_id ∘ g) r_id rows); [done|].
    intros _ r Hr%list_elem_of_lookup_2. by apply Hg.
  - apply Forall_fmap, Forall_forall. intros r Hr. by apply Hg.
Qed.

Lemma opt_or_null_or_null k : opt_or_null (or_null k) = or_null k.
Proof. by destruct k. Qed.

Lemma patched_normalised title data cur o r :
  stored_normalised cur →
  stored_normalised (patched title (patched_category data cur) data cur o r).
Proof.
  intros [x Hx]%(patched_category_form data).
  by apply (stored_normalised_written x).
Qed.

Lemma createBookmark_ok uuid data st :
  table_ok (bookmarks st) → table_ok (bookmarks (state_of (createBookmark uuid data st))).
Proof.
  intros [Hnd Hs].
  destruct (createBookmark_cases uuid data st)
    as [[e ->]|(new & b & -> & Hid & Hcat & Hord)]; [done|].
  simpl. split.
  - rewrite fmap_app. apply NoDup_app. split; [done|].
    split; [|apply NoDup_singleton].
    intros x Hx ->%list_elem_of_singleton. done.
  - apply Forall_app. split; [done|]. constructor; [|done].
    by apply (stored_normalised_written (nb_category data)).
Qed.

Lemma deleteBookmark_ok id st :
  table_ok (bookmarks st) → table_ok (bookmarks (state_of (deleteBookmark id st))).
Proof.
  intros Hok. destruct (filter (λ r, r_id r = id) (bookmarks st)) as [|cur rest] eqn:E.
  - unfold deleteBookmark. db_unfold. by rewrite E.
  - rewrite (deleteBookmark_rows _ _ _ _ E).
    by apply table_ok_filter, table_ok_shift.
Qed.

Lemma before_write_ok data cur (rows : list Row) :
  table_ok rows → table_ok (before_write data cur rows).
Proof.
  intros Hok. destruct (before_write_perm data cur rows) as (cat & o & ->).
  by apply table_ok_shift.
Qed.

Lemma updateBookmark_ok id data st :
  table_ok (bookmarks st) → table_ok (bookmarks (state_of (updateBookmark id data st))).
Proof.
  intros Hok. destruct (filter (λ r, r_id r = id) (bookmarks st)) as [|cur rest] eqn:E.
  { unfold updateBookmark. db_unfold. by rewrite E. }
  pose proof (select_by_id_found _ _ _ _ E) as [Hin Hid].
  assert (stored_normalised cur) as Hcur.
  { destruct Hok as [_ Hs]. rewrite Forall_forall in Hs. auto. }
  pose proof (before_write_ok data cur _ Hok) as Hbw.
  destruct (bookmark_columns (patched_title data cur) (patched_category data cur)
              (order_to_write data cur (bookmarks st))) as [e|[t c]] eqn:Hcol.
  { by rewrite (updateBookmark_found _ _ _ _ _ E), Hcol. }
  rewrite (updateBookmark_rows _ _ _ _ _ _ _ E Hcol).
  pose proof (patched_columns _ _ _ _ _ Hcur Hcol) as ->.
  destruct Hbw as [Hnd Hs]. apply table_ok_map; [|done].
  intros r Hr. destruct (decide (r_id r = id)).
  - split; [done|]. by apply patched_normalised.
  - split; [done|]. rewrite Forall_forall in Hs. auto.
Qed.

Lemma assign_category i ids r : r_category (assign i ids r) = r_category r.
Proof. unfold assign. by destruct (assigned i ids (r_id r)). Qed.

Lemma assign_normalised i ids r : stored_normalised r → stored_normalised (assign i ids r).
Proof.
  unfold stored_normalised, category_of. by rewrite assign_category.
Qed.

Lemma reorderBookmarks_ok order st :
  table_ok (bookmarks st) → table_ok (bookmarks (state_of (reorderBookmarks order st))).
Proof.
  intros [Hnd Hs]. rewrite reorderBookmarks_rows.
  apply table_ok_map; [|done].
  intros r Hr. simpl. rewrite !assign_id. split; [done|].
  rewrite Forall_forall in Hs. by apply assign_normalised, assign_normalised, Hs.
Qed.

(** X8: every state that the calls of the module lead to from the empty
    store has unique bookmark ids and stores every category as NULL or as a
    normalised, non-empty name; more generally the calls keep this property
    of a store, whatever their arguments. *)
Theorem calls_keep_well_formed (cs : list Call) (st : Store) :
  well_formed (calls cs empty_store)
  ∧ (well_formed st → well_formed (calls cs st)).
Proof.
  assert (∀ st, well_formed st → well_formed (calls cs st)) as H.
  { clear st. induction cs as [|c cs IH]; intros st Hwf; simpl; [done|].
    apply IH. unfold well_formed in *. destruct c; simpl.
    - by apply createBookmark_ok.
    - by apply updateBookmark_ok.
    - by apply deleteBookmark_ok.
    - by apply reorderBookmarks_ok.
    - by rewrite (proj1 (reorderBookmarkCategories_frame order st)).
    - destruct (updateSettings_cases data st) as [(_ & e & ->)|(_ & ->)]; done. }
  split; [|apply H]. apply H. split; [constructor|constructor].
Qed.

Lemma calls_keep_well_formed_witness :
  well_formed (calls example_calls pair_store).
Proof.
  apply (calls_keep_well_formed example_calls pair_store).
  exact pair_store_well_formed.
Defined.

(** ** [createBookmark] *)

Lemma listed_elem st b : b ∈ listed st ↔ ∃ r, r ∈ bookmarks st ∧ b = record_of_row r.
Proof.
  rewrite listed_perm, list_elem_of_fmap. split; intros (r & ? & ?); eauto.
Qed.

Lemma example_insertable :
  insertable (str "c") (new_bookmark (Val (str " work "))) pair_store.
Proof. repeat split; unfold fits; simpl; lia. Qed.

(** X9: when the database accepts the values (the id, the title and the
    normalised category are not longer than their columns and the order is
    an INTEGER), [createBookmark] with a fresh id appends one row and
    returns a record that agrees with the stored bookmark, as
    [listBookmarks] then shows it, in id, title, url, category and order,
    and with an id that is taken it throws; whenever it throws, for
    whatever reason, it has written nothing. *)
Theorem createBookmark_stores_what_it_returns (uuid : jsstring) (data : NewBookmark)
    (st : Store) :
  (insertable uuid data st → uuid ∉ r_id <$> bookmarks st →
   ∃ b, createBookmark uuid data st
        = (Returned b, with_bookmarks st (bookmarks st ++ [created uuid data (bookmarks st)]))
        ∧ record_of_row (created uuid data (bookmarks st))
          ∈ listed (state_of (createBookmark uuid data st))
        ∧ bk_id b = uuid
        ∧ bk_id (record_of_row (created uuid data (bookmarks st))) = uuid
        ∧ bk_title b = bk_title (record_of_row (created uuid data (bookmarks st)))
        ∧ bk_url b = bk_url (record_of_row (created uuid data (bookmarks st)))
        ∧ bk_category b = bk_category (record_of_row (created uuid data (bookmarks st)))
        ∧ bk_order b = bk_order (record_of_row (created uuid data (bookmarks st))))
  ∧ (insertable uuid data st → uuid ∈ r_id <$> bookmarks st →
     createBookmark uuid data st = (Thrown DuplicateKey, st))
  ∧ (∀ e, outcome_of (createBookmark uuid data st) = Thrown e →
          state_of (createBookmark uuid data st) = st).
Proof.
  split; [|split; [apply createBookmark_collision|apply createBookmark_thrown]].
  intros Hins Hfresh. rewrite createBookmark_fresh by done.
  eexists. split; [done|]. split.
  - apply listed_elem. eexists. split; [|done].
    simpl. apply elem_of_app. right. by left.
  - simpl. repeat split. by rewrite opt_or_null_or_null.
Qed.

Lemma createBookmark_stores_what_it_returns_witness :
  record_of_row (created (str "c") (new_bookmark (Val (str " work "))) (bookmarks pair_store))
  ∈ listed (state_of (createBookmark (str "c") (new_bookmark (Val (str " work "))) pair_store)).
Proof.
  destruct (createBookmark_stores_what_it_returns (str "c")
              (new_bookmark (Val (str " work "))) pair_store) as [Hfresh _].
  destruct Hfresh as (b & _ & Hin & _); [exact example_insertable| |exact Hin].
  apply (bool_decide_unpack _). by vm_compute.
Defined.

(** X10: in a store with unique ids and normalised categories, a bookmark
    created in a named category, the database accepting its values, gets
    one plus the greatest order of the bookmarks of that category, 0 when
    there is none; when the orders of the category are 0, ..., n-1 this is
    n. *)
Theorem createBookmark_named_category_order (uuid : jsstring) (data : NewBookmark)
    (st : Store) :
  well_formed st → insertable uuid data st → uuid ∉ r_id <$> bookmarks st →
  normalizeCategory (nb_category data) ≠ [] →
  ∃ b, outcome_of (createBookmark uuid data st) = Returned b
       ∧ bk_category b = Val (normalizeCategory (nb_category data))
       ∧ bk_order b
         = Some (default (-1)
                   (sql_max (orders_of (normalizeCategory (nb_category data)) st)) + 1)
       ∧ (contiguous (orders_of (normalizeCategory (nb_category data)) st) →
          bk_order b
          = Some (Z.of_nat (length (orders_of (normalizeCategory (nb_category data)) st)))).
Proof.
  intros [Hnd Hs] Hins Hfresh Hne. rewrite createBookmark_fresh by done.
  eexists. split; [done|]. simpl.
  rewrite in_category_named by done.
  split; [by destruct (normalizeCategory (nb_category data))|].
  split; [done|]. intros Hc. f_equal. by apply contiguous_max.
Qed.

Lemma createBookmark_named_category_order_witness :
  ∃ b, outcome_of (createBookmark (str "c") (new_bookmark (Val (str " work "))) pair_store)
       = Returned b
       ∧ bk_category b = Val (str "work")
       ∧ bk_order b = Some 2.
Proof.
  destruct (createBookmark_named_category_order (str "c")
              (new_bookmark (Val (str " work "))) pair_store)
    as (b & Hb & Hcat & Hord & _).
  - exact pair_store_well_formed.
  - exact example_insertable.
  - apply (bool_decide_unpack _). by vm_compute.
  - by vm_compute.
  - exists b. split; [exact Hb|]. split; [exact Hcat|]. rewrite Hord. by vm_compute.
Defined.

(** ** [updateBookmark] *)


Lemma mixed_store_well_formed : well_formed mixed_store.
Proof.
  split; [apply (bool_decide_unpack _); by vm_compute|repeat constructor].
Qed.


(** The order that a bookmark receives when it moves to a named category:
    the number of bookmarks of that category. *)
Lemma order_to_write_moved data st cur :
  well_formed st → named_order_invariant st → cur ∈ bookmarks st →
  normalizeCategory (p_category data) ≠ [] →
  normalizeCategory (p_category data) ≠ category_of cur →
  order_to_write data cur (bookmarks st)
  = Z.of_nat (length (orders_of (normalizeCategory (p_category data)) st)).
Proof.
  intros Hwf Hinv Hin Hnamed Hne. pose proof Hwf as [Hnd Hs].
  unfold order_to_write, before_write, moves. rewrite !decide_True by done.
  rewrite shifted_perm.
  destruct (table_ok_shift (or_null (category_of cur)) (r_order cur) _ Hwf)
    as [_ Hs'].
  rewrite in_category_named by done.
  fold (table_orders (normalizeCategory (p_category data))
          (shift_row (or_null (category_of cur)) (r_order cur) <$> bookmarks st)).
  rewrite table_orders_shift, decide_False, list_fmap_id by done.
  apply contiguous_max. by apply Hinv.
Qed.

(** X12: in a store with unique ids, normalised categories and contiguous
    orders in the named categories, a patch that names another, non-empty
    category, with a title and a category that are not longer than their
    columns, moves the bookmark to the end of that category: the call
    returns, the bookmark is stored with that category and with the former
    number of bookmarks of the category as its order, whatever order the
    patch carries, and the named categories, the one it left included, are
    contiguous again. *)
Theorem updateBookmark_moves_to_end (id : jsstring) (data : BookmarkPatch)
    (st : Store) (cur : Row) :
  well_formed st → named_order_invariant st →
  cur ∈ bookmarks st → r_id cur = id →
  normalizeCategory (p_category data) ≠ [] →
  normalizeCategory (p_category data) ≠ category_of cur →
  fits 500 (patched_title data cur) →
  fits 255 (normalizeCategory (p_category data)) →
  int4 (Z.of_nat (length (orders_of (normalizeCategory (p_category data)) st))) →
  (∃ b, outcome_of (updateBookmark id data st) = Returned (Some b)
        ∧ bk_category b = Val (normalizeCategory (p_category data))
        ∧ bk_order b
          = Some (Z.of_nat (length (orders_of (normalizeCategory (p_category data)) st))))
  ∧ (∀ r, r ∈ bookmarks (state_of (updateBookmark id data st)) → r_id r = id →
       r_category r = Some (normalizeCategory (p_category data))
       ∧ r_order r
         = Z.of_nat (length (orders_of (normalizeCategory (p_category data)) st)))
  ∧ well_formed (state_of (updateBookmark id data st))
  ∧ named_order_invariant (state_of (updateBookmark id data st)).
Proof.
  intros Hwf Hinv Hin Hid Hnamed Hne Ht Hc Ho.
  pose proof Hwf as [Hnd Hs].
  assert (filter (λ r, r_id r = id) (bookmarks st) = [cur]) as E
    by (rewrite <- Hid; by apply select_unique).
  assert (p_category data ≠ Undefined) as Hcat by (by intros Hu; rewrite Hu in Hnamed).
  pose proof (order_to_write_moved data st cur Hwf Hinv Hin Hnamed Hne) as How.
  assert (or_null (normalizeCategory (p_category data))
          = Some (normalizeCategory (p_category data))) as Hsome
    by (by destruct (normalizeCategory (p_category data))).
  assert (bookmark_columns (patched_title data cur) (patched_category data cur)
            (order_to_write data cur (bookmarks st))
          = inr (patched_title data cur, Some (normalizeCategory (p_category data))))
    as Hcol.
  { rewrite patched_category_named, How, <- Hsome by done.
    by apply bookmark_columns_fits. }
  split; [|split].
  - rewrite (updateBookmark_found _ _ _ _ _ E), Hcol. eexists. split; [done|].
    simpl. by rewrite Hsome, How.
  - destruct (updateBookmark_written _ _ _ _ _ _ _ E Hcol) as (cat & o & Hp).
    intros r Hr Hrid. rewrite Hp in Hr.
    apply list_elem_of_fmap in Hr as (r0 & -> & _).
    destruct (decide (r_id r0 = id)) as [_|Hr0]; [by rewrite <- How|].
    by rewrite shift_row_id in Hrid.
  - apply table_good_iff.
    apply (updateBookmark_good_moved id data st cur [] E Hcat Hne);
      [|by apply table_good_iff].
    intros [e He]. by rewrite (updateBookmark_found _ _ _ _ _ E), Hcol in He.
Qed.

Lemma mixed_store_invariant : named_order_invariant mixed_store.
Proof.
  intros c _. unfold orders_of, table_orders, mixed_store. simpl bookmarks.
  assert (∀ id o, category_of (example_row id (Some (str "work")) true o) = str "work")
    as Hwork by (intros; by vm_compute).
  assert (∀ id o, category_of (example_row id (Some (str "read")) true o) = str "read")
    as Hread by (intros; by vm_compute).
  rewrite !filter_cons, filter_nil, !Hwork, !Hread.
  destruct (decide (str "work" = c)) as [<-|Hw].
  - rewrite decide_False by done. unfold contiguous. reflexivity.
  - destruct (decide (str "read" = c)); unfold contiguous; reflexivity.
Qed.

Lemma updateBookmark_moves_to_end_witness :
  ∃ b, outcome_of (updateBookmark (str "a") move_patch mixed_store) = Returned (Some b)
       ∧ bk_category b = Val (normalizeCategory (p_category move_patch))
       ∧ bk_order b
         = Some (Z.of_nat
                   (length (orders_of (normalizeCategory (p_category move_patch)) mixed_store))).
Proof.
  apply (updateBookmark_moves_to_end (str "a") move_patch mixed_store
           (example_row "a" (Some (str "work")) true 0)).
  - exact mixed_store_well_formed.
  - exact mixed_store_invariant.
  - by left.
  - reflexivity.
  - by vm_compute.
  - by vm_compute.
  - unfold fits. simpl. lia.
  - unfold fits. simpl. lia.
  - by vm_compute.
Defined.

(** ** [deleteBookmark] *)





(** ** [reorderBookmarks] and the listing *)

Lemma listed_sorted st :
  StronglySorted (λ a b, compareBookmarks (category_sequence st) a b ≤ 0) (listed st).
Proof.
  apply sort_sorted.
  - apply compareBookmarks_total.
  - apply compareBookmarks_trans.
Qed.

(** In the listing, of two bookmarks of one category the one of smaller
    order comes first. *)
Lemma listed_before st i j a b :
  listed st !! i = Some a → listed st !! j = Some b →
  record_category a = record_category b → order_value a < order_value b →
  (i < j)%nat.
Proof.
  intros Ha Hb Hcat Hlt.
  destruct (decide (i < j)%nat) as [|Hge]; [done|]. exfalso.
  destruct (decide (i = j)) as [->|Hne].
  - rewrite Ha in Hb. injection Hb as ->. lia.
  - assert (j < i)%nat as Hji by lia.
    pose proof (StronglySorted_pairs _ _ _ _ _ _ (listed_sorted st) Hji Hb Ha) as Hcmp.
    apply compareBookmarks_le in Hcmp as [_ Hord].
    specialize (Hord (eq_sym Hcat)). lia.
Qed.

Lemma reorderBookmarks_listed_at order st r (p : nat) :
  NoDup order → r ∈ bookmarks (state_of (reorderBookmarks order st)) →
  order !! p = Some (r_id r) → r_order r = Z.of_nat p.
Proof.
  intros Hnd Hin Hp. apply (reorderBookmarks_listed_order order st); [done|done|].
  by apply NoDup_lookup_last.
Qed.

(** X14: after [reorderBookmarks] with a sequence without repetition, the
    listing it returns follows the sequence within every category: of two
    bookmarks of the same category whose ids stand in the sequence, the
    one that stands first in the sequence comes first in the listing. *)
Theorem reorderBookmarks_listing_follows_sequence (order : list jsstring) (st : Store)
    (p q i j : nat) (a b : BookmarkRecord) :
  NoDup order →
  order !! p = Some (bk_id a) → order !! q = Some (bk_id b) → (p < q)%nat →
  listed (state_of (reorderBookmarks order st)) !! i = Some a →
  listed (state_of (reorderBookmarks order st)) !! j = Some b →
  record_category a = record_category b →
  outcome_of (reorderBookmarks order st)
  = Returned (listed (state_of (reorderBookmarks order st)))
  ∧ (i < j)%nat.
Proof.
  intros Hnd Hp Hq Hpq Ha Hb Hcat. split.
  { by rewrite reorderBookmarks_returns. }
  apply (listed_before _ i j a b Ha Hb Hcat).
  apply list_elem_of_lookup_2, listed_elem in Ha as (ra & Hra & ->).
  apply list_elem_of_lookup_2, listed_elem in Hb as (rb & Hrb & ->).
  simpl in Hp, Hq. unfold order_value. simpl.
  rewrite (reorderBookmarks_listed_at order st ra p Hnd Hra Hp).
  rewrite (reorderBookmarks_listed_at order st rb q Hnd Hrb Hq). lia.
Qed.

Lemma reorderBookmarks_listing_follows_sequence_witness :
  listed (state_of (reorderBookmarks [str "b"; str "c"; str "a"] mixed_store)) !! 0%nat
  = Some (record_of_row (example_row "b" (Some (str "work")) true 0))
  ∧ listed (state_of (reorderBookmarks [str "b"; str "c"; str "a"] mixed_store)) !! 2%nat
    = Some (record_of_row (example_row "a" (Some (str "work")) true 2))
  ∧ (0 < 2)%nat.
Proof.
  assert (listed (state_of (reorderBookmarks [str "b"; str "c"; str "a"] mixed_store)) !! 0%nat
          = Some (record_of_row (example_row "b" (Some (str "work")) true 0))) as H0
    by (by vm_compute).
  assert (listed (state_of (reorderBookmarks [str "b"; str "c"; str "a"] mixed_store)) !! 2%nat
          = Some (record_of_row (example_row "a" (Some (str "work")) true 2))) as H2
    by (by vm_compute).
  split; [exact H0|]. split; [exact H2|].
  apply (reorderBookmarks_listing_follows_sequence
           [str "b"; str "c"; str "a"] mixed_store 0 2 0 2
           (record_of_row (example_row "b" (Some (str "work")) true 0))
           (record_of_row (example_row "a" (Some (str "work")) true 2))).
  - apply (bool_decide_unpack _). by vm_compute.
  - reflexivity.
  - reflexivity.
  - lia.
  - exact H0.
  - exact H2.
  - reflexivity.
Defined.

(** ** The endpoint *)

Section EndpointFurther.
Variable jwt_verify : jsstring → jsstring → option jsstring.
Variable JWT_SECRET : jsstring.

Lemma requireAuth_inr (req : Request) d :
  requireAuth jwt_verify JWT_SECRET req = inr d
  ↔ ∃ token, req_authorization req = Some (str "Bearer " ++ token)
             ∧ verifyToken jwt_verify JWT_SECRET token = Some d.
Proof.
  unfold requireAuth. split.
  - destruct (req_authorization req) as [h|]; [|done].
    destruct (truthy (Some h) && startsWith h (str "Bearer ")) eqn:E; [|done].
    apply andb_true_iff in E as [_ E]. apply startsWith_split in E.
    cbv zeta. destruct (verifyToken _ _ (drop 7 h)) as [d'|] eqn:Hv; [|done].
    intros [= ->]. exists (drop 7 h). split; [by rewrite E at 1|done].
  - intros (token & -> & Hv). rewrite startsWith_app. simpl.
    rewrite drop_0. by rewrite Hv.
Qed.

Lemma requireAuth_inl (req : Request) r :
  requireAuth jwt_verify JWT_SECRET req = inl r → r = sendError 401.
Proof.
  unfold requireAuth. destruct (req_authorization req) as [h|]; [|by intros [= <-]].
  destruct (_ && _); [|by intros [= <-]].
  cbv zeta. destruct (verifyToken _ _ _); [done|by intros [= <-]].
Qed.

(** X15: [requireAuth] yields an identity exactly when the Authorization
    header is 'Bearer ' followed by a token that [verifyToken] accepts, the
    identity being the one the token decodes to; in every other case it
    answers 401. *)
Theorem requireAuth_accepts_valid_bearer_only (req : Request) :
  (∀ d, requireAuth jwt_verify JWT_SECRET req = inr d
        ↔ ∃ token, req_authorization req = Some (str "Bearer " ++ token)
                   ∧ verifyToken jwt_verify JWT_SECRET token = Some d)
  ∧ (¬ valid_bearer jwt_verify JWT_SECRET req →
     requireAuth jwt_verify JWT_SECRET req = inl (sendError 401)).
Proof.
  split; [intros d; apply requireAuth_inr|].
  intros Hn. destruct (requireAuth _ _ req) as [r|d] eqn:E.
  - by rewrite (requireAuth_inl _ _ E).
  - exfalso. apply Hn. apply requireAuth_inr in E as (token & Hh & Hv).
    exists token. split; [done|]. by rewrite Hv.
Qed.

Lemma handler_post uuid (req : Request) st :
  req_method req = str "POST" →
  handler jwt_verify JWT_SECRET uuid req st
  = match requireAuth jwt_verify JWT_SECRET req with
    | inl unauthorized => (Returned unauthorized, st)
    | inr _ =>
        match req_body req with
        | None => (Returned (sendError 500), st)
        | Some body =>
            match opt_trim (b_title body), opt_trim (b_url body) with
            | Some (c :: t), Some (d :: u) =>
                match createBookmark uuid
                        {| nb_title := c :: t;
                           nb_url := sanitizeUrl (d :: u);
                           nb_category := or_undefined (opt_trim (b_category body));
                           nb_description := or_undefined (opt_trim (b_description body));
                           nb_visible := Some (nullish_opt (b_visible body) true) |} st with
                | (Returned bookmark, st') => (Returned (sendJson 201 (Bookmark bookmark)), st')
                | (Thrown _, st') => (Returned (sendError 500), st')
                end
            | _, _ => (Returned (sendError 400), st)
            end
        end
    end.
Proof.
  intros Hm. unfold handler, handleOptions. rewrite Hm.
  rewrite (bool_decide_eq_false_2 (str "POST" = str "OPTIONS")) by discriminate.
  rewrite (bool_decide_eq_false_2 (str "POST" = str "GET")) by discriminate.
  rewrite (bool_decide_eq_true_2 (str "POST" = str "POST")) by done.
  cbn [andb]. destruct (requireAuth _ _ req); [done|].
  unfold try_catch. destruct (req_body req) as [body|]; [|done].
  destruct (opt_trim (b_title body)) as [[|c t]|], (opt_trim (b_url body)) as [[|d u]|];
    try done.
  unfold mbind, db_bind. by destruct (createBookmark _ _ st) as [[b|e] st'].
Qed.

(** X16: the handler changes the store only for a POST that presents a
    valid bearer token: any other request (GET, OPTIONS, another method, a
    POST without a valid token) leaves the store as it is. *)
Theorem handler_writes_need_valid_bearer (uuid : jsstring) (req : Request) (st : Store) :
  state_of (handler jwt_verify JWT_SECRET uuid req st) ≠ st →
  req_method req = str "POST" ∧ valid_bearer jwt_verify JWT_SECRET req.
Proof.
  intros Hchg.
  destruct (decide (req_method req = str "POST")) as [Hm|Hm].
  - split; [done|]. rewrite (handler_post _ _ _ Hm) in Hchg.
    destruct (requireAuth _ _ req) as [r|d] eqn:E; [done|].
    apply requireAuth_inr in E as (token & Hh & Hv).
    exists token. split; [done|]. by rewrite Hv.
  - exfalso. apply Hchg. unfold handler.
    destruct (handleOptions req); [done|].
    destruct (_ && _); [done|].
    destruct (bool_decide (req_method req = str "GET")).
    + unfold try_catch, mbind, db_bind. rewrite listBookmarks_returns.
      by destruct (getAuthFromRequest _ _ req).
    + by rewrite bool_decide_eq_false_2.
Qed.
Lemma opt_trim_blank (x : option jsstring) :
  blank x ↔ match opt_trim x with
            | Some (_ :: _) => False
            | _ => True
            end.
Proof.
  unfold blank, opt_trim. destruct x as [s|]; simpl; [|done].
  destruct (trim s); split; done.
Qed.

(** X17: an authorised POST whose title or url is absent or blank after
    trimming is answered 400 and writes nothing. *)
Theorem handler_post_requires_title_and_url (uuid : jsstring) (req : Request)
    (body : BookmarkBody) (st : Store) :
  req_method req = str "POST" → valid_bearer jwt_verify JWT_SECRET req →
  req_body req = Some body →
  blank (b_title body) ∨ blank (b_url body) →
  handler jwt_verify JWT_SECRET uuid req st = (Returned (sendError 400), st).
Proof.
  intros Hm (token & Hh & [d Hv]) Hb Hblank. rewrite (handler_post _ _ _ Hm).
  assert (requireAuth jwt_verify JWT_SECRET req = inr d) as ->
    by (apply requireAuth_inr; eauto).
  rewrite Hb. rewrite !opt_trim_blank in Hblank.
  destruct (opt_trim (b_title body)) as [[|c t]|], (opt_trim (b_url body)) as [[|e u]|];
    try done; by destruct Hblank.
Qed.

Lemma sanitizeUrl_trim u : sanitizeUrl (trim u) = sanitizeUrl u.
Proof. unfold sanitizeUrl. by rewrite trim_idemp. Qed.

Lemma normalizeCategory_body (x : option jsstring) :
  or_null (normalizeCategory (or_undefined (opt_trim x))) = or_null (trim (default [] x)).
Proof.
  destruct x as [s|]; simpl; [|done].
  destruct (trim s) as [|c t] eqn:E; [done|].
  rewrite normalizeCategory_trim. cbn [nullish]. by rewrite <- E, trim_idemp.
Qed.

(** An authorised POST with a title and a url answers as [createBookmark]
    ends. *)
Lemma handler_post_valid uuid (req : Request) (body : BookmarkBody) (t u : jsstring) st :
  req_method req = str "POST" → valid_bearer jwt_verify JWT_SECRET req →
  req_body req = Some body →
  b_title body = Some t → trim t ≠ [] → b_url body = Some u → trim u ≠ [] →
  handler jwt_verify JWT_SECRET uuid req st
  = match createBookmark uuid (posted t u body) st with
    | (Returned bookmark, st') => (Returned (sendJson 201 (Bookmark bookmark)), st')
    | (Thrown _, st') => (Returned (sendError 500), st')
    end.
Proof.
  intros Hm (token & Hh & [d Hv]) Hb Ht Htne Hu Hune.
  rewrite (handler_post _ _ _ Hm).
  assert (requireAuth jwt_verify JWT_SECRET req = inr d) as ->
    by (apply requireAuth_inr; eauto).
  rewrite Hb, Ht, Hu. unfold posted. simpl.
  destruct (trim t) as [|c t'] eqn:Et; [done|].
  destruct (trim u) as [|e u'] eqn:Eu; [done|]. done.
Qed.

(** X18: an authorised POST with a title and a url that are not blank is
    answered 201 with the created bookmark when the generated id is fresh
    and the database accepts the values: one row is appended, with the
    trimmed title, the sanitised url (which carries a scheme), the trimmed
    category (NULL when absent or blank) and visibility true unless the
    body says otherwise; whenever [createBookmark] throws, as it does when
    the generated id is taken, the answer is 500 and nothing is written. *)
Theorem handler_post_creates (uuid : jsstring) (req : Request) (body : BookmarkBody)
    (t u : jsstring) (st : Store) :
  req_method req = str "POST" → valid_bearer jwt_verify JWT_SECRET req →
  req_body req = Some body →
  b_title body = Some t → trim t ≠ [] → b_url body = Some u → trim u ≠ [] →
  (insertable uuid (posted t u body) st → uuid ∉ r_id <$> bookmarks st →
   ∃ b row,
     handler jwt_verify JWT_SECRET uuid req st
     = (Returned (sendJson 201 (Bookmark b)), with_bookmarks st (bookmarks st ++ [row]))
     ∧ bk_id b = uuid ∧ bk_title b = trim t ∧ bk_url b = sanitizeUrl u
     ∧ r_id row = uuid ∧ r_title row = trim t ∧ r_url row = sanitizeUrl u
     ∧ has_http_scheme (r_url row) = true
     ∧ r_category row = or_null (trim (default [] (b_category body)))
     ∧ r_visible row = default true (b_visible body))
  ∧ (insertable uuid (posted t u body) st → uuid ∈ r_id <$> bookmarks st →
     handler jwt_verify JWT_SECRET uuid req st = (Returned (sendError 500), st))
  ∧ (throws (createBookmark uuid (posted t u body)) st →
     handler jwt_verify JWT_SECRET uuid req st = (Returned (sendError 500), st)).
Proof.
  intros Hm Hauth Hb Ht Htne Hu Hune.
  rewrite (handler_post_valid uuid req body t u st) by done.
  split; [|split].
  - intros Hins Hfresh. rewrite createBookmark_fresh by done.
    eexists _, _. split; [done|]. simpl. rewrite sanitizeUrl_trim.
    repeat split; try done.
    + apply sanitizeUrl_has_scheme.
    + apply normalizeCategory_body.
  - intros Hins Htaken. by rewrite createBookmark_collision.
  - intros [e He]. pose proof (createBookmark_thrown _ _ _ _ He) as Hst.
    destruct (createBookmark uuid (posted t u body) st) as [[b|e'] st'];
      simpl in *; [done|by subst].
Qed.
End EndpointFurther.

Lemma example_bearer :
  valid_bearer example_verify [] (post_request (Some (str "Bearer ok")) (Some example_body)).
Proof. exists (str "ok"). split; [reflexivity|]. by exists (str "admin"). Qed.

Lemma handler_writes_need_valid_bearer_witness :
  req_method (post_request (Some (str "Bearer ok")) (Some example_body)) = str "POST"
  ∧ valid_bearer example_verify []
      (post_request (Some (str "Bearer ok")) (Some example_body)).
Proof.
  apply (handler_writes_need_valid_bearer example_verify [] (str "c")
           (post_request (Some (str "Bearer ok")) (Some example_body)) pair_store).
  intros H. apply (f_equal (λ s, length (bookmarks s))) in H.
  vm_compute in H. discriminate H.
Defined.

Lemma handler_post_requires_title_and_url_witness :
  handler example_verify [] (str "c")
    (post_request (Some (str "Bearer ok")) (Some blank_body)) pair_store
  = (Returned (sendError 400), pair_store).
Proof.
  apply (handler_post_requires_title_and_url example_verify [] (str "c")
           (post_request (Some (str "Bearer ok")) (Some blank_body)) blank_body pair_store).
  - reflexivity.
  - exists (str "ok"). split; [reflexivity|]. by exists (str "admin").
  - reflexivity.
  - left. reflexivity.
Defined.

Lemma handler_post_creates_witness :
  ∃ b row,
    handler example_verify [] (str "c")
      (post_request (Some (str "Bearer ok")) (Some example_body)) pair_store
    = (Returned (sendJson 201 (Bookmark b)),
       with_bookmarks pair_store (bookmarks pair_store ++ [row]))
    ∧ r_title row = str "Docs"
    ∧ r_url row = str "https://example.org/docs"
    ∧ r_category row = Some (str "work")
    ∧ r_visible row = true.
Proof.
  destruct (handler_post_creates example_verify [] (str "c")
              (post_request (Some (str "Bearer ok")) (Some example_body))
              example_body (str " Docs ") (str "example.org/docs") pair_store)
    as [Hfresh _].
  - reflexivity.
  - exact example_bearer.
  - reflexivity.
  - reflexivity.
  - by vm_compute.
  - reflexivity.
  - by vm_compute.
  - destruct Hfresh as (b & row & Hh & _ & _ & _ & _ & Ht & Hu & _ & Hc & Hv).
    + repeat split; unfold fits; simpl; lia.
    + apply (bool_decide_unpack _). by vm_compute.
    + exists b, row. rewrite Ht, Hu, Hc, Hv. repeat split; done.
Defined.

(** ** Reordering, continued *)

Lemma reorderBookmarks_ids order st :
  r_id <$> bookmarks (state_of (reorderBookmarks order st)) ≡ₚ r_id <$> bookmarks st.
Proof.
  rewrite reorderBookmarks_rows, <- list_fmap_compose.
  apply eq_subrelation; [apply _|].
  apply list_fmap_ext. intros _ r _. simpl. by rewrite !assign_id.
Qed.

(** With unique ids and a sequence of distinct, existing ids, the ids the
    sequence leaves out are as many as the store has more than the
    sequence. *)
Lemma missing_ids_length order st :
  NoDup (r_id <$> bookmarks st) → NoDup order →
  (∀ id, id ∈ order → id ∈ r_id <$> bookmarks st) →
  length (bookmarks st) = (length order + length (missing_ids order st))%nat.
Proof.
  intros Hnd Hord Hsub.
  rewrite <- (length_fmap r_id (bookmarks st)).
  rewrite <- (filter_app_complement (λ id, id ∈ order) (r_id <$> bookmarks st)).
  rewrite length_app. unfold missing_ids. f_equal.
  apply Permutation_length, NoDup_Permutation; [by apply NoDup_filter|done|].
  intros id. rewrite list_elem_of_filter. split; [tauto|]. auto.
Qed.

(** Every bookmark is either at a position of the sequence or at a position
    among the ids left out. *)
Lemma reorderBookmarks_position order st r :
  r ∈ bookmarks (state_of (reorderBookmarks order st)) →
  (∃ p : nat, order !! p = Some (r_id r))
  ∨ ((r_id r ∉ order) ∧ ∃ k : nat, missing_ids order st !! k = Some (r_id r)).
Proof.
  intros Hin. destruct (decide (r_id r ∈ order)) as [Ho|Ho].
  - left. by apply list_elem_of_lookup_1.
  - right. split; [done|]. apply list_elem_of_lookup_1.
    unfold missing_ids. apply list_elem_of_filter. split; [done|].
    rewrite <- (reorderBookmarks_ids order st). by apply list_elem_of_fmap_2.
Qed.

(** X19: with unique ids, [reorderBookmarks] on a sequence of distinct ids
    gives all bookmarks distinct orders; when the ids of the sequence all
    exist, the orders of the bookmarks of the store are exactly
    0, ..., n-1 for the n bookmarks. *)
Theorem reorderBookmarks_renumbers (order : list jsstring) (st : Store) :
  NoDup (r_id <$> bookmarks st) → NoDup order →
  NoDup (r_order <$> bookmarks (state_of (reorderBookmarks order st)))
  ∧ ((∀ id, id ∈ order → id ∈ r_id <$> bookmarks st) →
     contiguous (r_order <$> bookmarks (state_of (reorderBookmarks order st)))).
Proof.
  intros Hnd Hord.
  assert (NoDup (r_order <$> bookmarks (state_of (reorderBookmarks order st)))) as Hdis.
  { apply NoDup_fmap_2_strong.
    - intros r1 r2 H1 H2 Heq.
      assert (r_id r1 = r_id r2) as Hid.
      { destruct (reorderBookmarks_position order st r1 H1) as [[p Hp]|[Hn1 [k Hk]]],
          (reorderBookmarks_position order st r2 H2) as [[q Hq]|[Hn2 [m Hm]]].
        - rewrite (reorderBookmarks_listed_at order st r1 p Hord H1 Hp) in Heq.
          rewrite (reorderBookmarks_listed_at order st r2 q Hord H2 Hq) in Heq.
          assert (p = q) as -> by lia. congruence.
        - rewrite (reorderBookmarks_listed_at order st r1 p Hord H1 Hp) in Heq.
          rewrite (reorderBookmarks_missing_order order st r2 m Hnd H2 Hm) in Heq.
          apply lookup_lt_Some in Hp. lia.
        - rewrite (reorderBookmarks_missing_order order st r1 k Hnd H1 Hk) in Heq.
          rewrite (reorderBookmarks_listed_at order st r2 q Hord H2 Hq) in Heq.
          apply lookup_lt_Some in Hq. lia.
        - rewrite (reorderBookmarks_missing_order order st r1 k Hnd H1 Hk) in Heq.
          rewrite (reorderBookmarks_missing_order order st r2 m Hnd H2 Hm) in Heq.
          assert (k = m) as -> by lia. congruence. }
      apply (same_id_same_row (bookmarks (state_of (reorderBookmarks order st))));
        try done. by rewrite reorderBookmarks_ids.
    - apply (NoDup_fmap_1 r_id). by rewrite reorderBookmarks_ids. }
  split; [done|]. intros Hsub. apply contiguous_iff. split; [done|].
  intros o (r & -> & Hr)%list_elem_of_fmap.
  rewrite length_fmap, <- (length_fmap r_id), reorderBookmarks_ids, length_fmap.
  rewrite (missing_ids_length order st Hnd Hord Hsub).
  destruct (reorderBookmarks_position order st r Hr) as [[p Hp]|[_ [k Hk]]].
  - rewrite (reorderBookmarks_listed_at order st r p Hord Hr Hp).
    apply lookup_lt_Some in Hp. lia.
  - rewrite (reorderBookmarks_missing_order order st r k Hnd Hr Hk).
    apply lookup_lt_Some in Hk. lia.
Qed.

Lemma reorderBookmarks_renumbers_witness :
  contiguous (r_order <$> bookmarks (state_of (reorderBookmarks [str "c"; str "a"] mixed_store))).
Proof.
  apply (reorderBookmarks_renumbers [str "c"; str "a"] mixed_store).
  - apply mixed_store_well_formed.
  - apply (bool_decide_unpack _). by vm_compute.
  - intros id Hid. apply (bool_decide_unpack _).
    apply elem_of_cons in Hid as [->|Hid]; [by vm_compute|].
    apply list_elem_of_singleton in Hid as ->. by vm_compute.
Defined.

(** ** The listing, continued *)

Lemma compareBookmarks_unlisted st a b :
  compareBookmarks (category_sequence st) a b ≤ 0 →
  category_index st a = None → category_index st b = None →
  order_value a ≤ order_value b.
Proof.
  unfold compareBookmarks, category_index, record_category, order_value.
  rewrite !indexOf_position. intros H Ha Hb. rewrite Ha, Hb in H.
  case_decide; [done|lia].
Qed.

(** X20: the bookmarks whose categories are not in the category-order table
    are not grouped by category: among them the listing is in ascending
    order, whatever their categories. *)
Theorem listBookmarks_unlisted_by_order (st : Store) (i j : nat) (a b : BookmarkRecord) :
  (i < j)%nat → listed st !! i = Some a → listed st !! j = Some b →
  category_index st a = None → category_index st b = None →
  order_value a ≤ order_value b.
Proof.
  intros Hij Ha Hb Hia Hib.
  apply (compareBookmarks_unlisted st a b); [|done|done].
  exact (StronglySorted_pairs _ _ _ _ _ _ (listed_sorted st) Hij Ha Hb).
Qed.

Lemma listBookmarks_unlisted_by_order_witness :
  order_value (record_of_row (example_row "c" (Some (str "read")) true 0))
  ≤ order_value (record_of_row (example_row "b" (Some (str "work")) true 1)).
Proof.
  apply (listBookmarks_unlisted_by_order mixed_store 1 2); [lia|..]; reflexivity.
Defined.

Lemma position_NoDup (l : list jsstring) (p : nat) c :
  NoDup l → l !! p = Some c → position l c = Some p.
Proof.
  intros Hnd Hp. apply position_Some. split; [done|].
  intros j Hj Hc. pose proof (NoDup_lookup _ _ _ _ Hnd Hp Hc). lia.
Qed.

(** X21: after [reorderBookmarkCategories] with a sequence without
    repetition of names that a VARCHAR(255) column holds, the listing it
    returns groups the bookmarks by that sequence: a bookmark whose
    category stands earlier in the sequence comes before every bookmark
    whose category stands later. *)
Theorem reorderBookmarkCategories_groups_listing (order : list jsstring) (st : Store)
    (p q i j : nat) (a b : BookmarkRecord) :
  NoDup order → Forall (fits 255) order →
  order !! p = Some (record_category a) → order !! q = Some (record_category b) →
  (p < q)%nat →
  listed (state_of (reorderBookmarkCategories order st)) !! i = Some a →
  listed (state_of (reorderBookmarkCategories order st)) !! j = Some b →
  outcome_of (reorderBookmarkCategories order st)
  = Returned (listed (state_of (reorderBookmarkCategories order st)))
  ∧ (i < j)%nat.
Proof.
  intros Hnd Hfit Hp Hq Hpq Ha Hb.
  assert (category_sequence (state_of (reorderBookmarkCategories order st)) = order)
    as Hseq.
  { rewrite reorderBookmarkCategories_state, listBookmarks_returns by done.
    unfold state_of, category_sequence. simpl.
    rewrite upsert_all_fresh by (done || (intros; apply not_elem_of_nil)).
    simpl. rewrite sort_sorted_id by apply rows_from_sorted.
    apply rows_from_categories. }
  split; [by rewrite reorderBookmarkCategories_state, listBookmarks_returns|].
  set (st' := state_of (reorderBookmarkCategories order st)) in *.
  assert (category_index st' a = Some p) as Hia
    by (unfold category_index; rewrite Hseq; by apply position_NoDup).
  assert (category_index st' b = Some q) as Hib
    by (unfold category_index; rewrite Hseq; by apply position_NoDup).
  destruct (decide (i < j)%nat) as [|Hge]; [done|]. exfalso.
  destruct (decide (i = j)) as [->|Hne].
  - rewrite Ha in Hb. injection Hb as ->. rewrite Hia in Hib.
    injection Hib as ->. lia.
  - assert (j < i)%nat as Hji by lia.
    pose proof (StronglySorted_pairs _ _ _ _ _ _ (listed_sorted st') Hji Hb Ha) as Hcmp.
    apply compareBookmarks_le in Hcmp as [Hidx _].
    rewrite Hia, Hib in Hidx. simpl in Hidx. lia.
Qed.

Lemma reorderBookmarkCategories_groups_listing_witness :
  listed (state_of (reorderBookmarkCategories [str "read"; str "work"] mixed_store)) !! 0%nat
  = Some (record_of_row (example_row "c" (Some (str "read")) true 0))
  ∧ listed (state_of (reorderBookmarkCategories [str "read"; str "work"] mixed_store)) !! 1%nat
    = Some (record_of_row (example_row "a" (Some (str "work")) true 0))
  ∧ (0 < 1)%nat.
Proof.
  assert (listed (state_of (reorderBookmarkCategories [str "read"; str "work"] mixed_store))
            !! 0%nat
          = Some (record_of_row (example_row "c" (Some (str "read")) true 0))) as H0
    by (by vm_compute).
  assert (listed (state_of (reorderBookmarkCategories [str "read"; str "work"] mixed_store))
            !! 1%nat
          = Some (record_of_row (example_row "a" (Some (str "work")) true 0))) as H1
    by (by vm_compute).
  split; [exact H0|]. split; [exact H1|].
  apply (reorderBookmarkCategories_groups_listing [str "read"; str "work"] mixed_store
           0 1 0 1
           (record_of_row (example_row "c" (Some (str "read")) true 0))
           (record_of_row (example_row "a" (Some (str "work")) true 0))).
  - apply (bool_decide_unpack _). by vm_compute.
  - exact example_names_fit.
  - reflexivity.
  - reflexivity.
  - lia.
  - exact H0.
  - exact H1.
Defined.

Lemma requireAuth_accepts_valid_bearer_only_witness :
  requireAuth example_verify [] (get_request (Some (str "Bearer no")))
  = inl (sendError 401).
Proof.
  apply (requireAuth_accepts_valid_bearer_only example_verify []
           (get_request (Some (str "Bearer no")))).
  intros (token & Hh & [d Hd]). injection Hh as <-. vm_compute in Hd. discriminate Hd.
Defined.
